(** * Terrestria: the free-mode physics adapter, the spatial component,
      the render system's animation entry point and the agent system.

    A shallow embedding of
      - back/src/free_mode_impl.ts   (FreeModeImpl, isInside, isGroundContact)
      - back/src/spatial_component.ts (CSpatial) and its earlier revision
        ServerSpatialComponent
      - front/src/terrestria/render_system.ts (RenderSystem.playAnimation)
      - back/src/agent_system.ts     (AgentSystem)

    Conventions.  A JavaScript [number] that carries a coordinate or a
    velocity is a rational ([Q]); the arithmetic the code performs on them
    (sums, products with 0.5, 0.25, 6, 10) is exact there.  Identifiers
    (entity ids, body ids, pair ids) are naturals ([N]); contact ids are
    strings, as the source types them.  A [Map] is a [gmap].  Objects that
    are shared by reference (matter-js bodies) live in a store indexed by the
    body id, and every holder keeps the id.  A method that can [throw]
    returns a [Result]. *)

From Stdlib Require Import ZArith QArith Qround Lqa List Decimal DecimalString.
From Stdlib Require Import Qabs Qminmax.
From stdpp Require Import base option list strings gmap.

Local Open Scope Z_scope.

(** ** Values shared by all the modules *)

Abbreviation EntityId := N (only parsing).
Abbreviation BodyId := N (only parsing).
Abbreviation PairId := N (only parsing).

(** [GameError] of common/error: an exception carrying its message. *)
Record GameError := mkGameError { message : string }.

Inductive Result (A : Type) : Type :=
| Return (a : A)
| Throw (e : GameError).
Arguments Return {A} a.
Arguments Throw {A} e.

(** Template-literal interpolation [`${id}`] of a non-negative integer. *)
Definition numberToString (n : N) : string :=
  NilZero.string_of_uint (N.to_uint n).

(** ** Geometry *)

Record Vec2 := mkVec2 { vec_x : Q; vec_y : Q }.

(** [Direction] of common/definitions. *)
Inductive Direction := UP | RIGHT | DOWN | LEFT.

Definition Direction_eqb (a b : Direction) : bool :=
  match a, b with
  | UP, UP | RIGHT, RIGHT | DOWN, DOWN | LEFT, LEFT => true
  | _, _ => false
  end.

(** Modelled from the spec: [vecMult] of common/geometry is not in src/;
    it scales a vector by a number. *)
Definition vecMult (v : Vec2) (k : Q) : Vec2 :=
  {| vec_x := (vec_x v * k)%Q; vec_y := (vec_y v * k)%Q |}.

(** [x !== 0] on numbers. *)
Definition nonzero (q : Q) : bool := negb (Qeq_bool q 0).

(** What the comment in [moveAgent] ("Only 1 component is non-zero") expects
    of [directionToVector] (common/geometry, not in src/): LEFT and RIGHT map
    to a unit vector along x, UP and DOWN to a unit vector along y. *)
Definition unit_q (q : Q) : bool := Qeq_bool q 1 || Qeq_bool q (-1).

Definition axis_unit (d : Direction) (v : Vec2) : bool :=
  match d with
  | LEFT | RIGHT => unit_q (vec_x v) && Qeq_bool (vec_y v) 0
  | UP | DOWN => Qeq_bool (vec_x v) 0 && unit_q (vec_y v)
  end.

Definition axis_aligned (dtv : Direction -> Vec2) : bool :=
  axis_unit UP (dtv UP) && axis_unit RIGHT (dtv RIGHT) &&
  axis_unit DOWN (dtv DOWN) && axis_unit LEFT (dtv LEFT).

(** free_mode_impl.ts, [isInside]. *)
Definition isInside (rectX rectY rectW rectH ptX ptY : Q) : bool :=
  Qle_bool rectX ptX && Qle_bool ptX (rectX + rectW) &&
  Qle_bool rectY ptY && Qle_bool ptY (rectY + rectH).

(** ** Span2d *)

(** Modelled from the spec: [Span2d] of common/span is not in src/.  A row
    index maps to its horizontal intervals [a, b]; [contains] looks the point
    up in its row. *)
Record Span2d := mkSpan2d { spans : gmap Z (list (Z * Z)) }.

Definition Span2d_contains (r : Span2d) (x y : Z) : bool :=
  match spans r !! y with
  | Some row => existsb (fun ab => (fst ab <=? x) && (x <=? snd ab)) row
  | None => false
  end.

(** ** matter-js objects *)

Record Bounds := mkBounds { bounds_min : Vec2; bounds_max : Vec2 }.

Record Body := mkBody {
  position : Vec2;
  velocity : Vec2;
  bounds : Bounds
}.

Definition zeroVec : Vec2 := {| vec_x := 0; vec_y := 0 |}.

#[global] Instance Body_inhabited : Inhabited Body :=
  populate {| position := zeroVec; velocity := zeroVec;
              bounds := {| bounds_min := zeroVec; bounds_max := zeroVec |} |}.

(** A contact of a pair: its id and the world position of its vertex. *)
Record Contact := mkContact { contact_id : string; vertex : Vec2 }.

(** [Matter.IPair]: [bodyA] and [bodyB] are references to bodies. *)
Record Pair := mkPair {
  pair_id : PairId;
  bodyA : BodyId;
  bodyB : BodyId;
  activeContacts : list Contact;
  contacts : list Contact
}.

(** [Bounds.overlaps] of matter-js. *)
Definition Bounds_overlaps (a b : Bounds) : bool :=
  Qle_bool (vec_x (bounds_min a)) (vec_x (bounds_max b)) &&
  Qle_bool (vec_x (bounds_min b)) (vec_x (bounds_max a)) &&
  Qle_bool (vec_y (bounds_min b)) (vec_y (bounds_max a)) &&
  Qle_bool (vec_y (bounds_min a)) (vec_y (bounds_max b)).

(** free_mode_impl.ts, [isGroundContact]. *)
Definition isGroundContact (body : Body) (contact : Contact) : bool :=
  let xMin := vec_x (bounds_min (bounds body)) in
  let xMax := vec_x (bounds_max (bounds body)) in
  let yMax := vec_y (bounds_max (bounds body)) in
  let w := (xMax - xMin)%Q in
  let hotSpotW := (0.5 * w)%Q in
  let hotSpotH := 8%Q in
  let hotSpotX := (xMin + 0.5 * (w - hotSpotW))%Q in
  let hotSpotY := (yMax - 0.5 * hotSpotH)%Q in
  isInside hotSpotX hotSpotY hotSpotW hotSpotH
           (vec_x (vertex contact)) (vec_y (vertex contact)).

(** ** FreeModeImpl *)

(** [FreeModeSubcomponent]: the entity it belongs to and a reference to its
    physics body. *)
Record FreeModeSubcomponent := mkFreeModeSubcomponent {
  entityId : EntityId;
  body : BodyId
}.

(** Events handed to [EntityManager.postEvent]. *)
Inductive GameEvent :=
| ENTITY_COLLISION (entityA entityB : EntityId)
| ENTITY_MOVED (entity : EntityId) (direction : Direction).

(** The fields of [FreeModeImpl], the body store of the engine, the list
    [engine.world.bodies] and the log of the events posted so far. *)
Record FreeModeImpl := mkFreeModeImpl {
  gravRegion : Span2d;
  componentsByEntityId : gmap N FreeModeSubcomponent;
  componentsByBodyId : gmap N FreeModeSubcomponent;
  grounded : gmap N string;
  collisions : gmap N Pair;
  bodies : gmap N Body;
  worldBodies : list BodyId;
  posted : list GameEvent
}.

Definition with_grounded (g : gmap N string) (s : FreeModeImpl) :=
  {| gravRegion := gravRegion s;
     componentsByEntityId := componentsByEntityId s;
     componentsByBodyId := componentsByBodyId s;
     grounded := g;
     collisions := collisions s;
     bodies := bodies s;
     worldBodies := worldBodies s;
     posted := posted s |}.

Definition with_collisions (k : gmap N Pair) (s : FreeModeImpl) :=
  {| gravRegion := gravRegion s;
     componentsByEntityId := componentsByEntityId s;
     componentsByBodyId := componentsByBodyId s;
     grounded := grounded s;
     collisions := k;
     bodies := bodies s;
     worldBodies := worldBodies s;
     posted := posted s |}.

Definition with_bodies (h : gmap N Body) (s : FreeModeImpl) :=
  {| gravRegion := gravRegion s;
     componentsByEntityId := componentsByEntityId s;
     componentsByBodyId := componentsByBodyId s;
     grounded := grounded s;
     collisions := collisions s;
     bodies := h;
     worldBodies := worldBodies s;
     posted := posted s |}.

(** [this._em.postEvent(event)] *)
Definition postEvent (e : GameEvent) (s : FreeModeImpl) :=
  {| gravRegion := gravRegion s;
     componentsByEntityId := componentsByEntityId s;
     componentsByBodyId := componentsByBodyId s;
     grounded := grounded s;
     collisions := collisions s;
     bodies := bodies s;
     worldBodies := worldBodies s;
     posted := posted s ++ [e] |}.

(** [Body.setVelocity(body, v)] on the shared body object. *)
Definition Body_setVelocity (b : BodyId) (v : Vec2) (s : FreeModeImpl) :=
  let old := bodies s !!! b in
  with_bodies (<[b := {| position := position old; velocity := v;
                         bounds := bounds old |}]> (bodies s)) s.

(** Modelled from the spec: [FreeModeSubcomponent.x()] and [y()] are not in
    src/; the subcomponent's position is the one its physics body holds. *)
Definition comp_x (s : FreeModeImpl) (c : FreeModeSubcomponent) : Q :=
  vec_x (position (bodies s !!! body c)).
Definition comp_y (s : FreeModeImpl) (c : FreeModeSubcomponent) : Q :=
  vec_y (position (bodies s !!! body c)).

(** Modelled from the spec: [FreeModeSubcomponent._postMoveEvent] is not in
    src/; it posts the entity's move event on the entity manager. *)
Definition postMoveEvent (c : FreeModeSubcomponent) (d : Direction)
    (s : FreeModeImpl) : FreeModeImpl :=
  postEvent (ENTITY_MOVED (entityId c) d) s.

Definition PLAYER_VELOCITY_H : Q := 6.
Definition PLAYER_VELOCITY_V : Q := 10.

(** *** The collision handlers *)

(** [if (c && isGroundContact(c.body, contact)) this._grounded.set(...)],
    for [c] the component of either body of the pair. *)
Definition groundContactFor (o : option FreeModeSubcomponent) (contact : Contact)
    (s : FreeModeImpl) : FreeModeImpl :=
  match o with
  | Some c =>
      if isGroundContact (bodies s !!! body c) contact
      then with_grounded (<[entityId c := contact_id contact]> (grounded s)) s
      else s
  | None => s
  end.

(** Body of the [forEach] over [pair.activeContacts] in the
    "collisionActive" handler. *)
Definition activeContactStep (a b : option FreeModeSubcomponent)
    (s : FreeModeImpl) (contact : Contact) : FreeModeImpl :=
  groundContactFor b contact (groundContactFor a contact s).

(** The block guarded by [!this._collisions.has(pair.id)]: the pair is
    entered in the table and, when both bodies belong to components, the
    collision event is posted. *)
Definition registerPair (s : FreeModeImpl) (pair : Pair) : FreeModeImpl :=
  let a := componentsByBodyId s !! bodyA pair in
  let b := componentsByBodyId s !! bodyB pair in
  match collisions s !! pair_id pair with
  | None =>
      let s' := with_collisions (<[pair_id pair := pair]> (collisions s)) s in
      match a, b with
      | Some ca, Some cb =>
          postEvent (ENTITY_COLLISION (entityId ca) (entityId cb)) s'
      | _, _ => s'
      end
  | Some _ => s
  end.

(** Body of the [forEach] over [event.pairs] in the "collisionActive"
    handler. *)
Definition collisionActivePair (s : FreeModeImpl) (pair : Pair) : FreeModeImpl :=
  let a := componentsByBodyId s !! bodyA pair in
  let b := componentsByBodyId s !! bodyB pair in
  fold_left (activeContactStep a b) (activeContacts pair) (registerPair s pair).

Definition collisionActive (s : FreeModeImpl) (pairs : list Pair) : FreeModeImpl :=
  fold_left collisionActivePair pairs s.

(** [contact.id === this._grounded.get(id)] *)
Definition isStoredContact (s : FreeModeImpl) (e : EntityId) (contact : Contact) : bool :=
  match grounded s !! e with
  | Some cid => String.eqb (contact_id contact) cid
  | None => false
  end.

(** [if (c) { if (contact.id === this._grounded.get(c.entityId))
    this._grounded.delete(c.entityId) }], for [c] the component of either
    body of the pair. *)
Definition endContactFor (o : option FreeModeSubcomponent) (contact : Contact)
    (s : FreeModeImpl) : FreeModeImpl :=
  match o with
  | Some c =>
      if isStoredContact s (entityId c) contact
      then with_grounded (delete (entityId c) (grounded s)) s
      else s
  | None => s
  end.

(** Body of the [forEach] over [pair.contacts] in the "collisionEnd"
    handler. *)
Definition endContactStep (a b : option FreeModeSubcomponent)
    (s : FreeModeImpl) (contact : Contact) : FreeModeImpl :=
  endContactFor b contact (endContactFor a contact s).

(** [if (this._collisions.has(pair.id)) this._collisions.delete(pair.id)] *)
Definition unregisterPair (s : FreeModeImpl) (pair : Pair) : FreeModeImpl :=
  match collisions s !! pair_id pair with
  | Some _ => with_collisions (delete (pair_id pair) (collisions s)) s
  | None => s
  end.

Definition collisionEndPair (s : FreeModeImpl) (pair : Pair) : FreeModeImpl :=
  let a := componentsByBodyId s !! bodyA pair in
  let b := componentsByBodyId s !! bodyB pair in
  fold_left (endContactStep a b) (contacts pair) (unregisterPair s pair).

Definition collisionEnd (s : FreeModeImpl) (pairs : list Pair) : FreeModeImpl :=
  fold_left collisionEndPair pairs s.

(** What the engine reports between two calls of the adapter. *)
Inductive EngineEvent :=
| CollisionActive (pairs : list Pair)
| CollisionEnd (pairs : list Pair).

Definition handle (s : FreeModeImpl) (ev : EngineEvent) : FreeModeImpl :=
  match ev with
  | CollisionActive pairs => collisionActive s pairs
  | CollisionEnd pairs => collisionEnd s pairs
  end.

Definition run (s : FreeModeImpl) (evs : list EngineEvent) : FreeModeImpl :=
  fold_left handle evs s.

(** *** Component table *)

Definition getComponent (s : FreeModeImpl) (id : EntityId)
    : Result FreeModeSubcomponent :=
  match componentsByEntityId s !! id with
  | Some c => Return c
  | None =>
      Throw (mkGameError ("No spatial component for entity " +:+ numberToString id))
  end.

(** [World.remove] of matter-js: the body is looked up with [indexOf] and
    that one occurrence is spliced out of [engine.world.bodies]. *)
Fixpoint World_remove (bs : list BodyId) (b : BodyId) : list BodyId :=
  match bs with
  | [] => []
  | b' :: rest => if N.eqb b' b then rest else b' :: World_remove rest b
  end.

Definition removeComponent (s : FreeModeImpl) (c : FreeModeSubcomponent) : FreeModeImpl :=
  {| gravRegion := gravRegion s;
     componentsByEntityId := delete (entityId c) (componentsByEntityId s);
     componentsByBodyId := delete (body c) (componentsByBodyId s);
     grounded := delete (entityId c) (grounded s);
     collisions := collisions s;
     bodies := bodies s;
     worldBodies := World_remove (worldBodies s) (body c);
     posted := posted s |}.

Definition bodyGrounded (s : FreeModeImpl) (e : EntityId) : bool :=
  bool_decide (is_Some (grounded s !! e)).

(** *** Region query *)

(** Modelled from the spec: [Query.region] belongs to matter-js, not to
    src/; it keeps the bodies whose bounds overlap the queried bounds. *)
Definition Query_region (h : gmap N Body) (bs : list BodyId) (region : Bounds)
    : list BodyId :=
  List.filter (fun b => Bounds_overlaps (bounds (h !!! b)) region) bs.

Definition entitiesWithinRadius (s : FreeModeImpl) (x y r : Q) : gset N :=
  let found :=
    Query_region (bodies s) (worldBodies s)
      {| bounds_min := {| vec_x := x - r; vec_y := y - r |};
         bounds_max := {| vec_x := x + r; vec_y := y + r |} |}%Q in
  fold_left
    (fun (entities : gset N) b =>
       match componentsByBodyId s !! b with
       | Some c => entities ∪ {[ entityId c ]}
       | None => entities
       end)
    found ∅.

(** *** Movement *)

Section Movement.

(** [BLOCK_SZ_WLD] (common/constants) and [directionToVector]
    (common/geometry) are imported from files that are not in src/. *)
Variable BLOCK_SZ_WLD : Q.
Variable directionToVector : Direction -> Vec2.

(** The callback given to the constructor.  It belongs to the spatial
    system, which may change the adapter (remove the component, for
    one) before it answers. *)
Variable attemptModeTransitionFn :
  EntityId -> Q -> Q -> Direction -> FreeModeImpl -> bool * FreeModeImpl.

(** The probe of [_tryLeaveGravRegion], relative to the centre. *)
Definition probe (direction : Direction) : Vec2 :=
  let v := vecMult (directionToVector direction) BLOCK_SZ_WLD in
  let u := directionToVector direction in
  let probeLen := (BLOCK_SZ_WLD * 0.25)%Q in
  {| vec_x := (0.5 * vec_x v + vec_x u * probeLen)%Q;
     vec_y := (0.5 * vec_y v + vec_y u * probeLen)%Q |}.

Definition probeGridX (s : FreeModeImpl) (c : FreeModeSubcomponent)
    (direction : Direction) : Z :=
  let centreX := (comp_x s c + 0.5 * BLOCK_SZ_WLD)%Q in
  Qfloor ((centreX + vec_x (probe direction)) / BLOCK_SZ_WLD).

Definition probeGridY (s : FreeModeImpl) (c : FreeModeSubcomponent)
    (direction : Direction) : Z :=
  let centreY := (comp_y s c + 0.5 * BLOCK_SZ_WLD)%Q in
  Qfloor ((centreY + vec_y (probe direction)) / BLOCK_SZ_WLD).

Definition tryLeaveGravRegion (s : FreeModeImpl) (c : FreeModeSubcomponent)
    (direction : Direction) : bool * FreeModeImpl :=
  let gridX := probeGridX s c direction in
  let gridY := probeGridY s c direction in
  if negb (Span2d_contains (gravRegion s) gridX gridY) then
    attemptModeTransitionFn (entityId c)
                            (inject_Z gridX * BLOCK_SZ_WLD)%Q
                            (inject_Z gridY * BLOCK_SZ_WLD)%Q
                            direction s
  else (false, s).

(** The velocity [moveAgent] hands to [Body.setVelocity]. *)
Definition newVelocity (s : FreeModeImpl) (c : FreeModeSubcomponent)
    (direction : Direction) : Vec2 :=
  let dir := directionToVector direction in
  let vec := {| vec_x := (vec_x dir * PLAYER_VELOCITY_H)%Q;
                vec_y := (vec_y dir * PLAYER_VELOCITY_V)%Q |} in
  let old := velocity (bodies s !!! body c) in
  {| vec_x := if nonzero (vec_x vec) then vec_x vec else vec_x old;
     vec_y := if nonzero (vec_y vec) then vec_y vec else vec_y old |}.

Definition moveAgent (s : FreeModeImpl) (id : EntityId) (direction : Direction)
    : Result (bool * FreeModeImpl) :=
  match getComponent s id with
  | Throw e => Throw e
  | Return c =>
      let '(fired, s1) := tryLeaveGravRegion s c direction in
      if negb fired then
        if Direction_eqb direction UP && negb (bodyGrounded s1 (entityId c))
        then Return (false, s1)
        else if Direction_eqb direction DOWN
        then Return (true, s1)
        else
          let s2 := Body_setVelocity (body c) (newVelocity s1 c direction) s1 in
          Return (true, postMoveEvent c direction s2)
      else Return (true, postMoveEvent c direction s1)
  end.

End Movement.

(** ** The spatial component *)

Module Spatial.

(** common/spatial_packet, [SpatialMode]. *)
Inductive SpatialMode := GRID_MODE | FREE_MODE.

Definition SpatialMode_eqb (a b : SpatialMode) : bool :=
  match a, b with
  | GRID_MODE, GRID_MODE | FREE_MODE, FREE_MODE => true
  | _, _ => false
  end.

(** Modelled from the spec: [GridModeSubcomponent] and
    [FreeModeSubcomponent] are not in src/.  Each is seen here through
    what its accessors [x()], [y()] and [isDirty()] (the field [dirty] in
    the earlier revision) give back. *)
Record GridModeSubcomponent := mkGridMode {
  grid_x : Q; grid_y : Q; grid_dirty : bool
}.

Record FreeModeSubcomponent := mkFreeMode {
  free_x : Q; free_y : Q; free_dirty : bool
}.

End Spatial.

(** back/src/spatial_component.ts *)
Module CSpatial.
Import Spatial.

Record t := mk {
  currentMode : SpatialMode;
  gridMode : GridModeSubcomponent;
  freeMode : FreeModeSubcomponent;
  teleport : bool
}.

Definition isDirty (c : t) : bool :=
  if SpatialMode_eqb (currentMode c) GRID_MODE
  then grid_dirty (gridMode c)
  else free_dirty (freeMode c).

Definition x (c : t) : Q :=
  if SpatialMode_eqb (currentMode c) GRID_MODE
  then grid_x (gridMode c) else free_x (freeMode c).

Definition y (c : t) : Q :=
  if SpatialMode_eqb (currentMode c) GRID_MODE
  then grid_y (gridMode c) else free_y (freeMode c).

End CSpatial.

(** The earlier revision of the same file (class ServerSpatialComponent). *)
Module ServerSpatialComponent.
Import Spatial.

Record t := mk {
  currentMode : SpatialMode;
  gridMode : GridModeSubcomponent;
  freeMode : FreeModeSubcomponent
}.

(** [return this.gridMode.dirty;// || this.freeMode.dirty;] *)
Definition isDirty (c : t) : bool := grid_dirty (gridMode c).

Definition x (c : t) : Q :=
  if SpatialMode_eqb (currentMode c) GRID_MODE
  then grid_x (gridMode c) else free_x (freeMode c).

Definition y (c : t) : Q :=
  if SpatialMode_eqb (currentMode c) GRID_MODE
  then grid_y (gridMode c) else free_y (freeMode c).

End ServerSpatialComponent.

(** ** RenderSystem.playAnimation *)

Module RenderSystem.

(** What [playAnimation] reads and writes of a [PIXI.AnimatedSprite] and
    of the [Animation] record around it. *)
Record Animation := mkAnimation {
  loop : bool;
  playing : bool;
  currentFrame : N;
  onCompleteSet : bool;
  endFrame : option string;
  setEndFrameFnHandle : Z
}.

Inductive SpriteRef :=
| StaticSprite (name : string)
| AnimatedSprite (name : string).

Record CSprite := mkCSprite {
  staticSprites : gset string;
  animatedSprites : gmap string Animation;
  currentSprite : option SpriteRef;
  activeAnimation : option string
}.

Inductive CRender :=
| Sprite (c : CSprite)
| Shape
| TiledRegion
| Text.

Record t := mk {
  components : gmap N CRender;
  scheduled : gset Z
}.

Definition getComponent (sys : t) (id : EntityId) : Result CRender :=
  match components sys !! id with
  | Some c => Return c
  | None =>
      Throw (mkGameError ("No render component for entity " +:+ numberToString id))
  end.

Definition getSpriteComponent (sys : t) (id : EntityId) : Result CSprite :=
  match getComponent sys id with
  | Throw e => Throw e
  | Return (Sprite c) => Return c
  | Return _ =>
      Throw (mkGameError ("Render component (id=" +:+ numberToString id
                          +:+ ") is not of type SPRITE"))
  end.

Section Staging.

(** [_updateComponentPosition(c)] puts the component's drawable on the
    stage, through [_setScreenPosition] or [_setWorldPosition].  It reads
    what this record does not hold (the spatial container, the spatial
    component kept by the entity manager) and throws when that is missing
    ("Render system not initialised", for one).  Whether it throws for a
    component is a parameter; the drawables it moves are not modelled. *)
Variable updateComponentPosition : EntityId -> CSprite -> option GameError.

(** [_spriteCompSetActiveSprite(c, name, true)], for the component [c] of
    [entityId]: the pending end-frame callback of the active animation is
    cancelled, the named animation becomes the current sprite and the
    component is positioned. *)
Definition spriteCompSetActiveSprite_animated (sys : t) (entityId : EntityId)
    (c : CSprite) (name : string) : Result (gset Z * CSprite) :=
  let sched :=
    match activeAnimation c with
    | Some active =>
        match animatedSprites c !! active with
        | Some a => scheduled sys ∖ {[ setEndFrameFnHandle a ]}
        | None => scheduled sys
        end
    | None => scheduled sys
    end in
  match animatedSprites c !! name with
  | None => Throw (mkGameError ("Component has no sprite with name " +:+ name))
  | Some _ =>
      let c1 :=
        {| staticSprites := staticSprites c;
           animatedSprites := animatedSprites c;
           currentSprite := Some (AnimatedSprite name);
           activeAnimation := Some name |} in
      match updateComponentPosition entityId c1 with
      | Some e => Throw e
      | None => Return (sched, c1)
      end
  end.

Definition playAnimation (sys : t) (entityId : EntityId) (name : string)
    : Result (bool * t) :=
  match getSpriteComponent sys entityId with
  | Throw e => Throw e
  | Return c =>
      match animatedSprites c !! name with
      | None =>
          Throw (mkGameError ("Entity " +:+ numberToString entityId
                              +:+ " has no animation '" +:+ name +:+ "'"))
      | Some anim =>
          match spriteCompSetActiveSprite_animated sys entityId c name with
          | Throw e => Throw e
          | Return (sched, c1) =>
              let anim' :=
                {| loop := false; playing := true; currentFrame := 0;
                   onCompleteSet := true; endFrame := endFrame anim;
                   setEndFrameFnHandle := setEndFrameFnHandle anim |} in
              let c2 :=
                {| staticSprites := staticSprites c1;
                   animatedSprites := <[name := anim']> (animatedSprites c1);
                   currentSprite := currentSprite c1;
                   activeAnimation := activeAnimation c1 |} in
              Return (true,
                      {| components := <[entityId := Sprite c2]> (components sys);
                         scheduled := sched |})
          end
      end
  end.

End Staging.

End RenderSystem.

(** ** AgentSystem *)

Module AgentSystem.

Record AgentComponent := mkAgentComponent {
  entityId : EntityId;
  dirty : bool;
  pinataId : string;
  pinataToken : string
}.

(** A JavaScript [Map] object has two sides: the entries reached through
    [get]/[set]/[has]/[delete], and the properties of the object itself,
    which the [in] operator inspects along the prototype chain. *)
Record JSMap := mkJSMap {
  entries : gmap N AgentComponent;
  ownProperties : list string
}.

Definition Map_prototype : list string :=
  ["constructor"; "clear"; "delete"; "entries"; "forEach"; "get"; "has";
   "keys"; "set"; "size"; "values"]%string.

Definition Object_prototype : list string :=
  ["constructor"; "hasOwnProperty"; "isPrototypeOf"; "propertyIsEnumerable";
   "toLocaleString"; "toString"; "valueOf"; "__defineGetter__";
   "__defineSetter__"; "__lookupGetter__"; "__lookupSetter__";
   "__proto__"]%string.

(** [new Map()] *)
Definition Map_new : JSMap := {| entries := ∅; ownProperties := [] |}.

(** [m.set(k, v)] adds an entry and no property. *)
Definition Map_set (k : N) (v : AgentComponent) (m : JSMap) : JSMap :=
  {| entries := <[k := v]> (entries m); ownProperties := ownProperties m |}.

Definition Map_delete (k : N) (m : JSMap) : JSMap :=
  {| entries := delete k (entries m); ownProperties := ownProperties m |}.

Definition Map_get (k : N) (m : JSMap) : option AgentComponent :=
  entries m !! k.

(** [k in m]: the key is turned into a property name and searched among
    the object's own properties and those of its prototypes. *)
Definition in_operator (k : N) (m : JSMap) : bool :=
  existsb (String.eqb (numberToString k))
          (ownProperties m ++ Map_prototype ++ Object_prototype).

Record t := mk { components : JSMap }.

(** The constructor. *)
Definition new : t := {| components := Map_new |}.

Definition numComponents (sys : t) : nat := size (entries (components sys)).

Definition addComponent (sys : t) (component : AgentComponent) : t :=
  {| components := Map_set (entityId component) component (components sys) |}.

Definition hasComponent (sys : t) (id : EntityId) : bool :=
  in_operator id (components sys).

Definition getComponent (sys : t) (id : EntityId) : Result AgentComponent :=
  match Map_get id (components sys) with
  | Some c => Return c
  | None =>
      Throw (mkGameError ("No agent component for entity " +:+ numberToString id))
  end.

Definition removeComponent (sys : t) (id : EntityId) : t :=
  {| components := Map_delete id (components sys) |}.

(** Calls of the public interface that change the table. *)
Inductive Call :=
| AddComponent (component : AgentComponent)
| RemoveComponent (id : EntityId).

Definition call (sys : t) (c : Call) : t :=
  match c with
  | AddComponent component => addComponent sys component
  | RemoveComponent id => removeComponent sys id
  end.

Definition calls (sys : t) (cs : list Call) : t := fold_left call cs sys.

(** The call neither removes the entity's component nor replaces it. *)
Definition keeps (id : EntityId) (c : Call) : bool :=
  match c with
  | AddComponent component => negb (N.eqb (entityId component) id)
  | RemoveComponent id' => negb (N.eqb id' id)
  end.

End AgentSystem.

(** ** The hot spot as two readings put it *)

(** The hot spot with its top edge on [yMax - 8] and its bottom edge on the
    bottom of the bounding box: the rectangle "flush with the bottom edge,
    immediately inside it". *)
Definition hotSpotFlushInside (body : Body) (contact : Contact) : bool :=
  let xMin := vec_x (bounds_min (bounds body)) in
  let xMax := vec_x (bounds_max (bounds body)) in
  let yMax := vec_y (bounds_max (bounds body)) in
  let w := (xMax - xMin)%Q in
  isInside (xMin + 0.25 * w)%Q (yMax - 8)%Q (0.5 * w)%Q 8%Q
           (vec_x (vertex contact)) (vec_y (vertex contact)).

(** The region the code tests: a quarter of the width in from either side,
    four units above and four units below the bottom edge, borders
    included. *)
Definition inHotSpot (body : Body) (contact : Contact) : Prop :=
  let xMin := vec_x (bounds_min (bounds body)) in
  let xMax := vec_x (bounds_max (bounds body)) in
  let yMax := vec_y (bounds_max (bounds body)) in
  let w := (xMax - xMin)%Q in
  (xMin + 0.25 * w <= vec_x (vertex contact) /\
   vec_x (vertex contact) <= xMax - 0.25 * w /\
   yMax - 4 <= vec_y (vertex contact) /\
   vec_y (vertex contact) <= yMax + 4)%Q.

(** The square [x-r, x+r] x [y-r, y+r] meets the bounds. *)
Definition meetsSquare (b : Bounds) (x y r : Q) : Prop :=
  (vec_x (bounds_min b) <= x + r /\ x - r <= vec_x (bounds_max b) /\
   vec_y (bounds_min b) <= y + r /\ y - r <= vec_y (bounds_max b))%Q.

(** The probe as the description has it: the centre, plus half a block and
    a quarter of a block along the direction, over the block size, floored. *)
Definition probeCellX (B : Q) (dtv : Direction -> Vec2) (s : FreeModeImpl)
    (c : FreeModeSubcomponent) (d : Direction) : Z :=
  Qfloor ((comp_x s c + 0.5 * B + (0.5 * B + 0.25 * B) * vec_x (dtv d)) / B).

Definition probeCellY (B : Q) (dtv : Direction -> Vec2) (s : FreeModeImpl)
    (c : FreeModeSubcomponent) (d : Direction) : Z :=
  Qfloor ((comp_y s c + 0.5 * B + (0.5 * B + 0.25 * B) * vec_y (dtv d)) / B).

(** ** Engine traces seen from one pair *)

(** The state with its grounded map forgotten: what the collision table
    and the event log depend on. *)
Definition core (s : FreeModeImpl) : FreeModeImpl := with_grounded ∅ s.

(** What a run of "collisionEnd" steps can do to the record of [e] that
    held [stored]: nothing, or delete it on account of a contact of that
    id ending in a pair one of whose bodies belongs to [e]. *)
Definition endedBy (cbb : gmap N FreeModeSubcomponent) (e : EntityId)
    (stored : option string) (p : Pair) (ct : Contact) : Prop :=
  In ct (contacts p) /\ stored = Some (contact_id ct) /\
  exists c, (cbb !! bodyA p = Some c \/ cbb !! bodyB p = Some c) /\
            entityId c = e.




(** *** Who writes the grounded map *)

(** The calls of the adapter that write [_grounded]: the two handlers and
    [removeComponent]. *)
Inductive AdapterCall :=
| OnCollisionActive (pairs : list Pair)
| OnCollisionEnd (pairs : list Pair)
| RemoveComponent (c : FreeModeSubcomponent).

Definition adapterCall (s : FreeModeImpl) (call : AdapterCall) : FreeModeImpl :=
  match call with
  | OnCollisionActive pairs => collisionActive s pairs
  | OnCollisionEnd pairs => collisionEnd s pairs
  | RemoveComponent c => removeComponent s c
  end.

(** The call reports the end of a contact of the given id. *)
Definition endsContact (cid : string) (call : AdapterCall) : Prop :=
  match call with
  | OnCollisionEnd pairs =>
      exists p ct, In p pairs /\ In ct (contacts p) /\ contact_id ct = cid
  | _ => False
  end.

(** The ids a "collisionActive" batch stores for the entity [e], in the
    order of the loops: for every pair, every active contact, and the
    component of body A before that of body B, the id of the contact when
    the component is one of [e] and the contact is a ground contact of its
    body. *)
Definition groundingOf (s : FreeModeImpl) (e : EntityId)
    (o : option FreeModeSubcomponent) (ct : Contact) : list string :=
  match o with
  | Some c =>
      if N.eqb (entityId c) e && isGroundContact (bodies s !!! body c) ct
      then [contact_id ct]
      else []
  | None => []
  end.

Definition pairGroundings (s : FreeModeImpl) (e : EntityId) (p : Pair)
    : list string :=
  flat_map (fun ct =>
              groundingOf s e (componentsByBodyId s !! bodyA p) ct
              ++ groundingOf s e (componentsByBodyId s !! bodyB p) ct)
           (activeContacts p).

Definition groundings (s : FreeModeImpl) (e : EntityId) (ps : list Pair)
    : list string :=
  flat_map (pairGroundings s e) ps.

(** A record after the given ids were stored over it, one after the
    other. *)
Definition overwritten (old : option string) (ids : list string)
    : option string :=
  match last ids with
  | Some cid => Some cid
  | None => old
  end.

(** ** A small world to run the definitions on *)

Module Sample.

Definition BLOCK_SZ_WLD : Q := 64.

Definition directionToVector (d : Direction) : Vec2 :=
  match d with
  | UP => {| vec_x := 0; vec_y := -1 |}
  | RIGHT => {| vec_x := 1; vec_y := 0 |}
  | DOWN => {| vec_x := 0; vec_y := 1 |}
  | LEFT => {| vec_x := -1; vec_y := 0 |}
  end.

(** Rows 0 to 2, columns 0 to 4. *)
Definition region : Span2d :=
  {| spans := {[ 0 := [(0, 4)]; 1 := [(0, 4)]; 2 := [(0, 4)] ]} |}.

(** A block-sized body with its top left corner at (x, y). *)
Definition box (x y : Q) (v : Vec2) : Body :=
  {| position := {| vec_x := x; vec_y := y |};
     velocity := v;
     bounds := {| bounds_min := {| vec_x := x; vec_y := y |};
                  bounds_max := {| vec_x := x + 64; vec_y := y + 64 |} |} |}.

Definition player : FreeModeSubcomponent := {| entityId := 1; body := 7 |}.
Definition rock : FreeModeSubcomponent := {| entityId := 2; body := 8 |}.

(** The player in the last column of row 1, a rock right under it and a
    fence body (9) that no component owns. *)
Definition world : FreeModeImpl :=
  {| gravRegion := region;
     componentsByEntityId := {[ 1%N := player; 2%N := rock ]};
     componentsByBodyId := {[ 7%N := player; 8%N := rock ]};
     grounded := ∅;
     collisions := ∅;
     bodies := {[ 7%N := box 256 64 {| vec_x := 1; vec_y := 2 |};
                  8%N := box 256 128 zeroVec;
                  9%N := box 320 64 zeroVec ]};
     worldBodies := [9%N; 7%N; 8%N];
     posted := [] |}.

(** The player standing on the rock: one contact in the middle of the
    player's bottom edge. *)
Definition feet : Contact :=
  {| contact_id := "8_0"; vertex := {| vec_x := 288; vec_y := 128 |} |}.
Definition side : Contact :=
  {| contact_id := "9_3"; vertex := {| vec_x := 320; vec_y := 100 |} |}.

Definition onRock : Pair :=
  {| pair_id := 78; bodyA := 7; bodyB := 8;
     activeContacts := [feet]; contacts := [feet] |}.
Definition onFence : Pair :=
  {| pair_id := 79; bodyA := 7; bodyB := 9;
     activeContacts := [side]; contacts := [side] |}.

Definition standing : FreeModeImpl := collisionActive world [onRock].

(** A transition callback that always switches the entity to grid mode,
    taking its component out of the adapter, and one that never does. *)
Definition always (id : EntityId) (x y : Q) (d : Direction) (s : FreeModeImpl)
    : bool * FreeModeImpl :=
  (true, match componentsByEntityId s !! id with
         | Some c => removeComponent s c
         | None => s
         end).

Definition never (id : EntityId) (x y : Q) (d : Direction) (s : FreeModeImpl)
    : bool * FreeModeImpl := (false, s).

Definition staleServerComponent : ServerSpatialComponent.t :=
  {| ServerSpatialComponent.currentMode := Spatial.FREE_MODE;
     ServerSpatialComponent.gridMode :=
       {| Spatial.grid_x := 2; Spatial.grid_y := 2; Spatial.grid_dirty := false |};
     ServerSpatialComponent.freeMode :=
       {| Spatial.free_x := 160; Spatial.free_y := 64; Spatial.free_dirty := true |} |}.

Definition gemSprite : RenderSystem.CSprite :=
  {| RenderSystem.staticSprites := {[ "gem.png"%string ]};
     RenderSystem.animatedSprites :=
       {[ "gem_burn"%string :=
            {| RenderSystem.loop := true; RenderSystem.playing := false;
               RenderSystem.currentFrame := 0%N;
               RenderSystem.onCompleteSet := false;
               RenderSystem.endFrame := None;
               RenderSystem.setEndFrameFnHandle := -1 |} ]};
     RenderSystem.currentSprite := Some (RenderSystem.StaticSprite "gem.png");
     RenderSystem.activeAnimation := None |}.

Definition renderer : RenderSystem.t :=
  {| RenderSystem.components := {[ 5%N := RenderSystem.Sprite gemSprite ]};
     RenderSystem.scheduled := ∅ |}.

(** The stage ready for every component, and the stage before
    [setWorldSize] was called. *)
Definition staged (id : EntityId) (c : RenderSystem.CSprite)
    : option GameError := None.

Definition notInitialised (id : EntityId) (c : RenderSystem.CSprite)
    : option GameError := Some (mkGameError "Render system not initialised").

Definition agent : AgentSystem.AgentComponent :=
  {| AgentSystem.entityId := 12; AgentSystem.dirty := true;
     AgentSystem.pinataId := "p"; AgentSystem.pinataToken := "t" |}.

Definition otherAgent : AgentSystem.AgentComponent :=
  {| AgentSystem.entityId := 13; AgentSystem.dirty := true;
     AgentSystem.pinataId := "q"; AgentSystem.pinataToken := "u" |}.

End Sample.

(** ** More of the adapter: adding components, fences *)

(** [a < b] on numbers. *)
Definition Qlt_bool (a b : Q) : bool := negb (Qle_bool b a).

Section AddComponent.

(** [FreeModeSubcomponent.setStaticPos] is not in src/: what it does to the
    component's body is a parameter. *)
Variable setStaticPos : Body -> Q -> Q -> Body.

(** free_mode_impl.ts, [addComponent]; [World.add] appends the body to
    [engine.world.bodies]. *)
Definition addComponent (s : FreeModeImpl) (c : FreeModeSubcomponent) (x y : Q)
    : bool * FreeModeImpl :=
  (true,
   {| gravRegion := gravRegion s;
      componentsByEntityId := <[entityId c := c]> (componentsByEntityId s);
      componentsByBodyId := <[body c := c]> (componentsByBodyId s);
      grounded := grounded s;
      collisions := collisions s;
      bodies := <[body c := setStaticPos (bodies s !!! body c) x y]> (bodies s);
      worldBodies := worldBodies s ++ [body c];
      posted := posted s |}).

End AddComponent.

(** An edge of the perimeter of the gravity region, in grid coordinates. *)
Record Edge := mkEdge { edge_A : Vec2; edge_B : Vec2 }.

Inductive EdgeOrientation := VERTICAL | HORIZONTAL.

(** Modelled from the spec: [orientation] of common/span is not in src/; an
    edge whose endpoints share their x coordinate is vertical, any other is
    horizontal. *)
Definition orientation (edge : Edge) : EdgeOrientation :=
  if Qeq_bool (vec_x (edge_A edge)) (vec_x (edge_B edge))
  then VERTICAL else HORIZONTAL.

(** Modelled from the spec: [Bodies.rectangle] and [Body.translate] belong
    to matter-js, not to src/.  The rectangle is centred on (x, y); a
    translation moves the position and the bounds alike. *)
Definition Bodies_rectangle (x y w h : Q) : Body :=
  {| position := {| vec_x := x; vec_y := y |};
     velocity := zeroVec;
     bounds :=
       {| bounds_min := {| vec_x := x - w / 2; vec_y := y - h / 2 |};
          bounds_max := {| vec_x := x + w / 2; vec_y := y + h / 2 |} |}%Q |}.

Definition Vector_sub (a b : Vec2) : Vec2 :=
  {| vec_x := (vec_x a - vec_x b)%Q; vec_y := (vec_y a - vec_y b)%Q |}.

Definition Vector_add (a b : Vec2) : Vec2 :=
  {| vec_x := (vec_x a + vec_x b)%Q; vec_y := (vec_y a + vec_y b)%Q |}.

Definition Body_translate (b : Body) (v : Vec2) : Body :=
  {| position := Vector_add (position b) v;
     velocity := velocity b;
     bounds := {| bounds_min := Vector_add (bounds_min (bounds b)) v;
                  bounds_max := Vector_add (bounds_max (bounds b)) v |} |}.

(** The body [_setupFences] builds for one edge of the perimeter. *)
Definition fenceBody (BLOCK_SZ_WLD : Q) (edge : Edge) : Body :=
  let A := edge_A edge in
  let B := edge_B edge in
  let fenceThickness := (BLOCK_SZ_WLD / 2)%Q in
  let w := (Qabs (vec_x B - vec_x A) * BLOCK_SZ_WLD)%Q in
  let h := (Qabs (vec_y B - vec_y A) * BLOCK_SZ_WLD)%Q in
  let x := (Qmin (vec_x A) (vec_x B) * BLOCK_SZ_WLD)%Q in
  let y := (Qmin (vec_y A) (vec_y B) * BLOCK_SZ_WLD)%Q in
  let body :=
    match orientation edge with
    | VERTICAL =>
        let x := if Qlt_bool (vec_y B) (vec_y A) then (x - fenceThickness)%Q else x in
        Bodies_rectangle x y fenceThickness h
    | HORIZONTAL =>
        let y := if Qlt_bool (vec_x A) (vec_x B) then (y - fenceThickness)%Q else y in
        Bodies_rectangle x y w fenceThickness
    end in
  Body_translate body (Vector_sub (position body) (bounds_min (bounds body))).

(** The bodies [_setupFences] adds to the world, in the order of the
    perimeter ([getPerimeter] of common/span is not in src/: the perimeter
    is given). *)
Definition setupFences (BLOCK_SZ_WLD : Q) (perimeter : list Edge) : list Body :=
  map (fenceBody BLOCK_SZ_WLD) perimeter.

(** ** The position setters of CSpatial *)

Section SpatialSetters.

(** The setters of the two subcomponents are not in src/: parameters. *)
Variable grid_setInstantaneousPos grid_setStaticPos :
  Spatial.GridModeSubcomponent -> Q -> Q -> Spatial.GridModeSubcomponent.
Variable free_setInstantaneousPos free_setStaticPos :
  Spatial.FreeModeSubcomponent -> Q -> Q -> Spatial.FreeModeSubcomponent.

Definition CSpatial_setInstantaneousPos (c : CSpatial.t) (x y : Q)
    (teleport : bool) : CSpatial.t :=
  let c1 :=
    if Spatial.SpatialMode_eqb (CSpatial.currentMode c) Spatial.GRID_MODE then
      {| CSpatial.currentMode := CSpatial.currentMode c;
         CSpatial.gridMode := grid_setInstantaneousPos (CSpatial.gridMode c) x y;
         CSpatial.freeMode := CSpatial.freeMode c;
         CSpatial.teleport := CSpatial.teleport c |}
    else if Spatial.SpatialMode_eqb (CSpatial.currentMode c) Spatial.FREE_MODE then
      {| CSpatial.currentMode := CSpatial.currentMode c;
         CSpatial.gridMode := CSpatial.gridMode c;
         CSpatial.freeMode := free_setInstantaneousPos (CSpatial.freeMode c) x y;
         CSpatial.teleport := CSpatial.teleport c |}
    else c in
  {| CSpatial.currentMode := CSpatial.currentMode c1;
     CSpatial.gridMode := CSpatial.gridMode c1;
     CSpatial.freeMode := CSpatial.freeMode c1;
     CSpatial.teleport := CSpatial.teleport c1 || teleport |}.

Definition CSpatial_setStaticPos (c : CSpatial.t) (x y : Q)
    (teleport : bool) : CSpatial.t :=
  let c1 :=
    if Spatial.SpatialMode_eqb (CSpatial.currentMode c) Spatial.GRID_MODE then
      {| CSpatial.currentMode := CSpatial.currentMode c;
         CSpatial.gridMode := grid_setStaticPos (CSpatial.gridMode c) x y;
         CSpatial.freeMode := CSpatial.freeMode c;
         CSpatial.teleport := CSpatial.teleport c |}
    else if Spatial.SpatialMode_eqb (CSpatial.currentMode c) Spatial.FREE_MODE then
      {| CSpatial.currentMode := CSpatial.currentMode c;
         CSpatial.gridMode := CSpatial.gridMode c;
         CSpatial.freeMode := free_setStaticPos (CSpatial.freeMode c) x y;
         CSpatial.teleport := CSpatial.teleport c |}
    else c in
  {| CSpatial.currentMode := CSpatial.currentMode c1;
     CSpatial.gridMode := CSpatial.gridMode c1;
     CSpatial.freeMode := CSpatial.freeMode c1;
     CSpatial.teleport := CSpatial.teleport c1 || teleport |}.

(** Calls of the two setters. *)
Inductive PositionCall :=
| SetInstantaneousPos (x y : Q) (teleport : bool)
| SetStaticPos (x y : Q) (teleport : bool).

Definition positionCall (c : CSpatial.t) (call : PositionCall) : CSpatial.t :=
  match call with
  | SetInstantaneousPos x y t => CSpatial_setInstantaneousPos c x y t
  | SetStaticPos x y t => CSpatial_setStaticPos c x y t
  end.

Definition positionCalls (c : CSpatial.t) (calls : list PositionCall) : CSpatial.t :=
  fold_left positionCall calls c.

Definition asksTeleport (call : PositionCall) : bool :=
  match call with
  | SetInstantaneousPos _ _ t | SetStaticPos _ _ t => t
  end.

End SpatialSetters.

(** ** Colour *)

Module Colour.

(** Modelled from the spec: [clamp] of common/utils is not in src/; it
    brings a value into the interval [lo, hi]. *)
Definition clamp (value lo hi : Q) : Q :=
  if Qlt_bool value lo then lo
  else if Qlt_bool hi value then hi
  else value.

(** [Math.round]: the nearest integer, halves upwards. *)
Definition Math_round (q : Q) : Z := Qfloor (q + (1 # 2))%Q.

Record t := mk { r : Q; g : Q; b : Q; a : Q }.

(** The constructor: every channel goes through its setter. *)
Definition new (r g b a : Q) : t :=
  {| r := clamp r 0 1; g := clamp g 0 1; b := clamp b 0 1; a := clamp a 0 1 |}.

Definition set_r (c : t) (value : Q) : t :=
  {| r := clamp value 0 1; g := g c; b := b c; a := a c |}.
Definition set_g (c : t) (value : Q) : t :=
  {| r := r c; g := clamp value 0 1; b := b c; a := a c |}.
Definition set_b (c : t) (value : Q) : t :=
  {| r := r c; g := g c; b := clamp value 0 1; a := a c |}.
Definition set_a (c : t) (value : Q) : t :=
  {| r := r c; g := g c; b := b c; a := clamp value 0 1 |}.

Definition value (c : t) : Z :=
  Math_round (r c * 255)%Q * 16 * 16 * 16 * 16 +
  Math_round (g c * 255)%Q * 16 * 16 +
  Math_round (b c * 255)%Q.

(** Calls of the setters. *)
Inductive Call := SetR (v : Q) | SetG (v : Q) | SetB (v : Q) | SetA (v : Q).

Definition call (c : t) (k : Call) : t :=
  match k with
  | SetR v => set_r c v
  | SetG v => set_g c v
  | SetB v => set_b c v
  | SetA v => set_a c v
  end.

End Colour.

(** ** The view of the render system *)

Module RenderView.

(** The window, the view (in pixels), the camera (in world units) and the
    transform of the PIXI stage.  The drawables that [onWindowResized] and
    [_setCameraPosition] go on to reposition and cull are not part of it. *)
Record t := mk {
  windowW : Q;
  windowH : Q;
  viewX_px : Q;
  viewY_px : Q;
  viewW_px : Q;
  viewH_px : Q;
  camera : Vec2;
  stage_scale : Q;
  stage_x : Q;
  stage_y : Q
}.

Section View.

(** [BLOCK_SZ_PX] (./constants) and [toPixels] (./utils) are not in src/. *)
Variable BLOCK_SZ_PX : Q.
Variable toPixels : Q -> Q.

Definition TARGET_VERTICAL_RESOLUTION : Q := 10 * BLOCK_SZ_PX.

(** The assignments of [_setCameraPosition] to the view. *)
Definition setCameraPosition_ (v : t) (x_wld y_wld : Q) : t :=
  let viewX := (toPixels x_wld - 0.5 * viewW_px v)%Q in
  let viewY := (toPixels y_wld - 0.5 * viewH_px v)%Q in
  let scale := (windowH v / viewH_px v)%Q in
  {| windowW := windowW v; windowH := windowH v;
     viewX_px := viewX; viewY_px := viewY;
     viewW_px := viewW_px v; viewH_px := viewH_px v;
     camera := {| vec_x := x_wld; vec_y := y_wld |};
     stage_scale := stage_scale v;
     stage_x := (- viewX * scale)%Q;
     stage_y := (- viewY * scale)%Q |}.

Definition setCameraPosition (v : t) (x_wld y_wld : Q) : t :=
  if Qlt_bool (Qabs (x_wld - vec_x (camera v))) 0.1 &&
     Qlt_bool (Qabs (y_wld - vec_y (camera v))) 0.1
  then v
  else setCameraPosition_ v x_wld y_wld.

(** The assignments of [onWindowResized] to the view. *)
Definition onWindowResized (v : t) (w h : Q) : t :=
  let scale := inject_Z (Qceiling (h / TARGET_VERTICAL_RESOLUTION)) in
  let aspect := (w / h)%Q in
  let viewH := (h / scale)%Q in
  let v1 :=
    {| windowW := w; windowH := h;
       viewX_px := viewX_px v; viewY_px := viewY_px v;
       viewW_px := (viewH * aspect)%Q; viewH_px := viewH;
       camera := camera v;
       stage_scale := scale;
       stage_x := stage_x v; stage_y := stage_y v |} in
  setCameraPosition_ v1 (vec_x (camera v)) (vec_y (camera v)).

End View.

(** unnamed/part_006, [getDistanceFromViewport], up to the square root it
    returns: the horizontal and the vertical distance of a point from the
    viewport whose centre is the camera. *)
Definition viewportOffset (cameraX cameraY viewW viewH x y : Q) : Q * Q :=
  let viewportX0 := (cameraX - viewW * 0.5)%Q in
  let viewportX1 := (cameraX + viewW * 0.5)%Q in
  let viewportY0 := (cameraY - viewH * 0.5)%Q in
  let viewportY1 := (cameraY + viewH * 0.5)%Q in
  let dx := 0%Q in
  let dy := 0%Q in
  let dx := if Qlt_bool viewportX1 x then (x - viewportX1)%Q else dx in
  let dx := if Qlt_bool x viewportX0 then (viewportX0 - x)%Q else dx in
  let dy := if Qlt_bool viewportY1 y then (y - viewportY1)%Q else dy in
  let dy := if Qlt_bool y viewportY0 then (viewportY0 - y)%Q else dy in
  (dx, dy).

End RenderView.

(** ** AgentSystem.getDirties *)

(** A component with its dirty flag lowered, and whether the component
    stored for an entity has it raised. *)
Definition AgentSystem_clean (c : AgentSystem.AgentComponent)
    : AgentSystem.AgentComponent :=
  {| AgentSystem.entityId := AgentSystem.entityId c;
     AgentSystem.dirty := false;
     AgentSystem.pinataId := AgentSystem.pinataId c;
     AgentSystem.pinataToken := AgentSystem.pinataToken c |}.

Definition AgentSystem_isDirty (m : gmap N AgentSystem.AgentComponent)
    (id : EntityId) : bool :=
  match m !! id with
  | Some c => AgentSystem.dirty c
  | None => false
  end.

(** The [Map] visits its entries in the order their keys were first
    inserted; [JSMap] does not keep that order, so the loop takes it as
    [order].  The array returned holds references to the components: it is
    given by their keys. *)
Definition AgentSystem_getDirtiesStep
    (acc : list EntityId * gmap N AgentSystem.AgentComponent) (id : EntityId)
    : list EntityId * gmap N AgentSystem.AgentComponent :=
  match snd acc !! id with
  | Some c =>
      if AgentSystem.dirty c
      then (fst acc ++ [id], <[id := AgentSystem_clean c]> (snd acc))
      else acc
  | None => acc
  end.

Definition AgentSystem_getDirties (order : list EntityId) (sys : AgentSystem.t)
    : list EntityId * AgentSystem.t :=
  let '(dirties, entries) :=
    fold_left AgentSystem_getDirtiesStep order
              ([], AgentSystem.entries (AgentSystem.components sys)) in
  (dirties,
   {| AgentSystem.components :=
        {| AgentSystem.entries := entries;
           AgentSystem.ownProperties :=
             AgentSystem.ownProperties (AgentSystem.components sys) |} |}).

(** ** What the further properties speak of *)

(** What neither handler writes. *)
Definition untouched (s s' : FreeModeImpl) : Prop :=
  gravRegion s' = gravRegion s /\
  componentsByEntityId s' = componentsByEntityId s /\
  componentsByBodyId s' = componentsByBodyId s /\
  bodies s' = bodies s /\
  worldBodies s' = worldBodies s.

(** Every channel is between 0 and 1. *)
Definition unitChannels (c : Colour.t) : Prop :=
  (0 <= Colour.r c <= 1 /\ 0 <= Colour.g c <= 1 /\
   0 <= Colour.b c <= 1 /\ 0 <= Colour.a c <= 1)%Q.

(** ** More sample data *)

Module MoreSamples.

(** A stand-in for [setStaticPos]: the body is put at (x, y), at rest. *)
Definition place (b : Body) (x y : Q) : Body := Sample.box x y zeroVec.

(** The player leaning on the fence with its feet on it. *)
Definition standingOnFence : Pair :=
  {| pair_id := 80; bodyA := 7; bodyB := 9;
     activeContacts := [Sample.side; Sample.feet];
     contacts := [Sample.side; Sample.feet] |}.

(** The right border of the sample region, walked upwards. *)
Definition rightBorder : Edge :=
  {| edge_A := {| vec_x := 5; vec_y := 3 |};
     edge_B := {| vec_x := 5; vec_y := 0 |} |}.

Definition BLOCK_SZ_PX : Q := 32.

Definition toPixels (x : Q) : Q := (x * (1 # 2))%Q.

Definition view : RenderView.t :=
  {| RenderView.windowW := 0; RenderView.windowH := 0;
     RenderView.viewX_px := 0; RenderView.viewY_px := 0;
     RenderView.viewW_px := 0; RenderView.viewH_px := 0;
     RenderView.camera := {| vec_x := 0; vec_y := 0 |};
     RenderView.stage_scale := 1;
     RenderView.stage_x := 0; RenderView.stage_y := 0 |}.

Definition agents : AgentSystem.t :=
  AgentSystem.calls AgentSystem.new
    [AgentSystem.AddComponent Sample.otherAgent;
     AgentSystem.AddComponent Sample.agent].

End MoreSamples.

(** * Properties *)

(** ** Ground contacts (isGroundContact) *)

Lemma isInside_spec rx ry rw rh px py :
  isInside rx ry rw rh px py = true <->
  (rx <= px /\ px <= rx + rw /\ ry <= py /\ py <= ry + rh)%Q.
Proof.
  unfold isInside.
  rewrite !andb_true_iff, !Qle_bool_iff. tauto.
Qed.

(** C5, as the code has it: a contact is a ground contact exactly when its
    vertex lies in the rectangle that is half as wide as the bounding box,
    centred on it horizontally, eight units high and centred vertically on
    the bottom edge of the box (four units inside, four units below),
    borders included. *)
Theorem isGroundContact_hot_spot (b : Body) (c : Contact) :
  isGroundContact b c = true <-> inHotSpot b c.
Proof.
  unfold isGroundContact, inHotSpot. cbv zeta.
  rewrite isInside_spec.
  split; intros (H1 & H2 & H3 & H4); repeat split; lra.
Qed.

(** C5, as stated, fails: a vertex two units below the bottom edge is a
    ground contact for the code, and lies outside the rectangle that sits
    flush inside the bottom edge. *)
Lemma isGroundContact_not_flush_inside :
  ~ (forall (b : Body) (c : Contact),
       isGroundContact b c = hotSpotFlushInside b c).
Proof.
  intros H.
  specialize (H (Sample.box 256 64 zeroVec)
                {| contact_id := "8_1";
                   vertex := {| vec_x := 288; vec_y := 130 |} |}).
  vm_compute in H. discriminate H.
Qed.

(** ** The spatial component's accessors *)

(** C6, as the code has it: the discriminator names exactly one of the two
    modes; [CSpatial] reads x, y and the dirty flag off the subcomponent it
    names; the earlier [ServerSpatialComponent] does so for x and y, while
    its [isDirty] is the grid-mode subcomponent's flag in either mode. *)
Theorem spatial_accessors_route :
  (forall c : CSpatial.t,
     match CSpatial.currentMode c with
     | Spatial.GRID_MODE =>
         CSpatial.x c = Spatial.grid_x (CSpatial.gridMode c) /\
         CSpatial.y c = Spatial.grid_y (CSpatial.gridMode c) /\
         CSpatial.isDirty c = Spatial.grid_dirty (CSpatial.gridMode c)
     | Spatial.FREE_MODE =>
         CSpatial.x c = Spatial.free_x (CSpatial.freeMode c) /\
         CSpatial.y c = Spatial.free_y (CSpatial.freeMode c) /\
         CSpatial.isDirty c = Spatial.free_dirty (CSpatial.freeMode c)
     end) /\
  (forall c : ServerSpatialComponent.t,
     match ServerSpatialComponent.currentMode c with
     | Spatial.GRID_MODE =>
         ServerSpatialComponent.x c
           = Spatial.grid_x (ServerSpatialComponent.gridMode c) /\
         ServerSpatialComponent.y c
           = Spatial.grid_y (ServerSpatialComponent.gridMode c)
     | Spatial.FREE_MODE =>
         ServerSpatialComponent.x c
           = Spatial.free_x (ServerSpatialComponent.freeMode c) /\
         ServerSpatialComponent.y c
           = Spatial.free_y (ServerSpatialComponent.freeMode c)
     end /\
     ServerSpatialComponent.isDirty c
       = Spatial.grid_dirty (ServerSpatialComponent.gridMode c)) /\
  (forall m : Spatial.SpatialMode,
     (m = Spatial.GRID_MODE /\ m <> Spatial.FREE_MODE) \/
     (m = Spatial.FREE_MODE /\ m <> Spatial.GRID_MODE)).
Proof.
  split; [| split].
  - intros [m g f t]. unfold CSpatial.x, CSpatial.y, CSpatial.isDirty.
    destruct m; simpl; auto.
  - intros [m g f].
    unfold ServerSpatialComponent.x, ServerSpatialComponent.y,
      ServerSpatialComponent.isDirty.
    destruct m; simpl; auto.
  - intros []; [left | right]; split; congruence.
Qed.

(** C6, as stated, fails on [ServerSpatialComponent]: in free mode, with a
    dirty free-mode subcomponent and a clean grid-mode one, [isDirty]
    answers for the grid-mode subcomponent. *)
Lemma server_isDirty_ignores_mode :
  ~ (forall c : ServerSpatialComponent.t,
       ServerSpatialComponent.currentMode c = Spatial.FREE_MODE ->
       ServerSpatialComponent.isDirty c
         = Spatial.free_dirty (ServerSpatialComponent.freeMode c)).
Proof.
  intros H. specialize (H Sample.staleServerComponent eq_refl).
  discriminate H.
Qed.

(** ** RenderSystem.playAnimation *)

(** C9, as the code has it: for a sprite component without the named
    animation [playAnimation] throws a [GameError] that names the entity
    and the animation; whenever the call returns, the value it returns is
    [true] and the component has the animation; and it does return when
    the component has the animation and positioning the sprite does not
    throw. *)
Theorem playAnimation_unknown_throws
    (updateComponentPosition : EntityId -> RenderSystem.CSprite -> option GameError)
    (sys : RenderSystem.t) (id : EntityId)
    (name : string) (c : RenderSystem.CSprite) :
  RenderSystem.getSpriteComponent sys id = Return c ->
  (RenderSystem.animatedSprites c !! name = None ->
   RenderSystem.playAnimation updateComponentPosition sys id name
   = Throw (mkGameError ("Entity " +:+ numberToString id
                         +:+ " has no animation '" +:+ name +:+ "'"))) /\
  (forall (b : bool) (sys' : RenderSystem.t),
     RenderSystem.playAnimation updateComponentPosition sys id name
     = Return (b, sys') ->
     b = true /\ is_Some (RenderSystem.animatedSprites c !! name)) /\
  (is_Some (RenderSystem.animatedSprites c !! name) ->
   (forall c1, updateComponentPosition id c1 = None) ->
   exists sys',
     RenderSystem.playAnimation updateComponentPosition sys id name
     = Return (true, sys')).
Proof.
  intros Hc. unfold RenderSystem.playAnimation. rewrite Hc.
  unfold RenderSystem.spriteCompSetActiveSprite_animated.
  split; [| split].
  - intros ->. reflexivity.
  - intros b sys'.
    destruct (RenderSystem.animatedSprites c !! name) as [anim|];
      [| intros H; discriminate H].
    destruct (updateComponentPosition id _); intros H; inversion H.
    split; [reflexivity | eauto].
  - intros [anim Hanim] Hupd. rewrite Hanim, Hupd. eexists. reflexivity.
Qed.

Lemma playAnimation_unknown_throws_witness :
  RenderSystem.playAnimation Sample.staged Sample.renderer 5%N "gem_zap"
  = Throw (mkGameError "Entity 5 has no animation 'gem_zap'") /\
  (exists sys',
     RenderSystem.playAnimation Sample.staged Sample.renderer 5%N "gem_burn"
     = Return (true, sys')) /\
  (forall b sys',
     RenderSystem.playAnimation Sample.notInitialised Sample.renderer 5%N
       "gem_burn" = Return (b, sys') ->
     b = true /\
     is_Some (RenderSystem.animatedSprites Sample.gemSprite !! "gem_burn"%string)).
Proof.
  split; [| split].
  - apply (playAnimation_unknown_throws Sample.staged Sample.renderer 5%N
             "gem_zap" Sample.gemSprite); reflexivity.
  - apply (playAnimation_unknown_throws Sample.staged Sample.renderer 5%N
             "gem_burn" Sample.gemSprite);
      [reflexivity | vm_compute; eauto | reflexivity].
  - apply (playAnimation_unknown_throws Sample.notInitialised Sample.renderer
             5%N "gem_burn" Sample.gemSprite). reflexivity.
Defined.

(** C9, as stated, fails: asked for an animation the sprite does not have,
    [playAnimation] gives no result back to its caller. *)
Lemma playAnimation_unknown_no_result :
  ~ (exists (b : bool) (sys' : RenderSystem.t),
       RenderSystem.playAnimation Sample.staged Sample.renderer 5%N "gem_zap"
       = Return (b, sys')).
Proof.
  intros (b & sys' & H). vm_compute in H. discriminate H.
Qed.

(** ** AgentSystem.hasComponent *)

(** The decimal form of a number is the name of no property of a [Map]
    object that has no own properties: those names start with a letter or
    an underscore. *)
Lemma number_names_no_prototype_property (k : N) :
  existsb (String.eqb (numberToString k))
          (AgentSystem.Map_prototype ++ AgentSystem.Object_prototype) = false.
Proof.
  unfold numberToString.
  destruct (N.to_uint k); reflexivity.
Qed.

(** No call of the interface gives the [Map] object a property of its
    own. *)
Lemma calls_ownProperties (cs : list AgentSystem.Call) (sys : AgentSystem.t) :
  AgentSystem.ownProperties (AgentSystem.components (AgentSystem.calls sys cs))
  = AgentSystem.ownProperties (AgentSystem.components sys).
Proof.
  revert sys. induction cs as [|c cs IH]; intros sys; [reflexivity|].
  unfold AgentSystem.calls in *. simpl. rewrite IH. destruct c; reflexivity.
Qed.

Lemma calls_keep_entry (cs : list AgentSystem.Call) (sys : AgentSystem.t)
    (id : EntityId) :
  forallb (AgentSystem.keeps id) cs = true ->
  AgentSystem.entries (AgentSystem.components (AgentSystem.calls sys cs)) !! id
  = AgentSystem.entries (AgentSystem.components sys) !! id.
Proof.
  revert sys. induction cs as [|c cs IH]; intros sys H; [reflexivity|].
  simpl in H. apply andb_true_iff in H as [Hc Hcs].
  unfold AgentSystem.calls in *. simpl. rewrite (IH _ Hcs).
  destruct c as [component|id']; simpl in *;
    apply negb_true_iff, N.eqb_neq in Hc.
  - apply lookup_insert_ne. exact Hc.
  - apply lookup_delete_ne. exact Hc.
Qed.

(** C10: on a system built from the constructor by calls of its interface,
    once a component was added and neither removed nor replaced,
    [hasComponent] of its entity answers [false] while [getComponent]
    returns that component. *)
Theorem hasComponent_misses_stored_component
    (before after : list AgentSystem.Call) (c : AgentSystem.AgentComponent) :
  forallb (AgentSystem.keeps (AgentSystem.entityId c)) after = true ->
  let sys :=
    AgentSystem.calls
      (AgentSystem.addComponent (AgentSystem.calls AgentSystem.new before) c)
      after in
  AgentSystem.hasComponent sys (AgentSystem.entityId c) = false /\
  AgentSystem.getComponent sys (AgentSystem.entityId c) = Return c.
Proof.
  intros Hkeep sys. split.
  - unfold AgentSystem.hasComponent, AgentSystem.in_operator. subst sys.
    rewrite calls_ownProperties. simpl.
    rewrite calls_ownProperties. simpl.
    apply number_names_no_prototype_property.
  - unfold AgentSystem.getComponent, AgentSystem.Map_get. subst sys.
    rewrite (calls_keep_entry _ _ _ Hkeep). simpl.
    rewrite lookup_insert_eq. reflexivity.
Qed.

Lemma hasComponent_misses_stored_component_witness :
  let sys :=
    AgentSystem.calls
      (AgentSystem.addComponent
         (AgentSystem.calls AgentSystem.new
            [AgentSystem.AddComponent Sample.otherAgent])
         Sample.agent)
      [AgentSystem.RemoveComponent 13%N] in
  AgentSystem.hasComponent sys 12%N = false /\
  AgentSystem.getComponent sys 12%N = Return Sample.agent.
Proof.
  apply (hasComponent_misses_stored_component
           [AgentSystem.AddComponent Sample.otherAgent]
           [AgentSystem.RemoveComponent 13%N] Sample.agent).
  reflexivity.
Defined.

(** ** entitiesWithinRadius *)

Lemma Bounds_overlaps_square (b : Bounds) (x y r : Q) :
  Bounds_overlaps b
    {| bounds_min := {| vec_x := x - r; vec_y := y - r |};
       bounds_max := {| vec_x := x + r; vec_y := y + r |} |} = true
  <-> meetsSquare b x y r.
Proof.
  unfold Bounds_overlaps, meetsSquare. simpl.
  rewrite !andb_true_iff, !Qle_bool_iff. tauto.
Qed.

(** The loop of [entitiesWithinRadius] collects the entity of every body of
    the list that the table knows, and nothing else. *)
Lemma collect_entities (cbb : gmap N FreeModeSubcomponent) (found : list BodyId)
    (acc : gset N) (e : EntityId) :
  e ∈ fold_left
        (fun (entities : gset N) b =>
           match cbb !! b with
           | Some c => entities ∪ {[ entityId c ]}
           | None => entities
           end) found acc
  <-> e ∈ acc \/ exists b c, In b found /\ cbb !! b = Some c /\ entityId c = e.
Proof.
  revert acc. induction found as [|b found IH]; intros acc; simpl.
  - split; [auto | intros [H | (b & c & [] & _)]; exact H].
  - rewrite IH. split.
    + intros [H | (b' & c & Hin & Hb & He)].
      * destruct (cbb !! b) as [c|] eqn:Hb.
        -- apply elem_of_union in H as [H | H]; [auto |].
           apply elem_of_singleton in H. right. exists b, c. auto.
        -- auto.
      * right. exists b', c. auto.
    + intros [H | (b' & c & [<- | Hin] & Hb & He)].
      * left. destruct (cbb !! b); [apply elem_of_union|]; auto.
      * left. rewrite Hb. apply elem_of_union. right.
        apply elem_of_singleton. auto.
      * right. exists b', c. auto.
Qed.

(** C8: an entity id is in the result exactly when a body of the world
    that the body-id table maps to a component of that entity has bounds
    meeting the square [x-r, x+r] x [y-r, y+r]; a world whose bodies are
    all unknown to the table (fences) gives the empty set. *)
Theorem entitiesWithinRadius_exact (s : FreeModeImpl) (x y r : Q) :
  (forall e : EntityId,
     e ∈ entitiesWithinRadius s x y r <->
     exists b c,
       In b (worldBodies s) /\
       componentsByBodyId s !! b = Some c /\ entityId c = e /\
       meetsSquare (bounds (bodies s !!! b)) x y r) /\
  ((forall b, In b (worldBodies s) -> componentsByBodyId s !! b = None) ->
   entitiesWithinRadius s x y r = ∅).
Proof.
  assert (Hiff : forall e : EntityId,
     e ∈ entitiesWithinRadius s x y r <->
     exists b c,
       In b (worldBodies s) /\
       componentsByBodyId s !! b = Some c /\ entityId c = e /\
       meetsSquare (bounds (bodies s !!! b)) x y r).
  { intros e. unfold entitiesWithinRadius, Query_region.
    rewrite collect_entities. split.
    - intros [H | (b & c & Hin & Hb & He)].
      + apply not_elem_of_empty in H. destruct H.
      + apply filter_In in Hin as [Hin Hov].
        apply Bounds_overlaps_square in Hov.
        exists b, c. auto.
    - intros (b & c & Hin & Hb & He & Hsq). right. exists b, c.
      split; [| auto]. apply filter_In. split; [exact Hin |].
      apply Bounds_overlaps_square. exact Hsq. }
  split; [exact Hiff |].
  intros Hnone. apply leibniz_equiv. apply elem_of_equiv_empty. intros e He.
  apply Hiff in He as (b & c & Hin & Hb & _).
  rewrite (Hnone b Hin) in Hb. discriminate Hb.
Qed.

Lemma entitiesWithinRadius_exact_witness :
  (1%N ∈ entitiesWithinRadius Sample.world 300 100 10) /\
  entitiesWithinRadius
    (removeComponent (removeComponent Sample.world Sample.player) Sample.rock)
    330 100 10 = ∅.
Proof.
  split.
  - apply (entitiesWithinRadius_exact Sample.world 300 100 10).
    exists 7%N, Sample.player. vm_compute. intuition discriminate.
  - apply (entitiesWithinRadius_exact
             (removeComponent (removeComponent Sample.world Sample.player)
                Sample.rock) 330 100 10).
    intros b Hin. vm_compute in Hin. destruct Hin as [<- | []].
    reflexivity.
Defined.

(** ** moveAgent *)

Lemma scaled_zero (a k : Q) :
  Qeq_bool a 0 = true -> nonzero (a * k) = false.
Proof.
  intros H. apply Qeq_bool_iff in H. unfold nonzero.
  apply negb_false_iff, Qeq_bool_iff. rewrite H. ring.
Qed.

Lemma scaled_unit (a k : Q) :
  unit_q a = true -> ~ (k == 0)%Q ->
  nonzero (a * k) = true /\ ((a * k == k)%Q \/ (a * k == - k)%Q).
Proof.
  unfold unit_q, nonzero. intros H Hk.
  apply orb_true_iff in H as [H | H]; apply Qeq_bool_iff in H.
  - split; [| left; rewrite H; ring].
    apply negb_true_iff. apply not_true_is_false. intros E.
    apply Qeq_bool_iff in E. apply Hk. rewrite <- E, H. ring.
  - split; [| right; rewrite H; ring].
    apply negb_true_iff. apply not_true_is_false. intros E.
    apply Qeq_bool_iff in E. apply Hk.
    rewrite H in E. lra.
Qed.

Ltac unfold_probe :=
  unfold probeGridX, probeGridY, probe, vecMult in *.
Ltac unfold_move :=
  unfold moveAgent, tryLeaveGravRegion in *.
Ltac unfold_newVelocity := unfold newVelocity in *.

(** What a body holds once [Body.setVelocity] has been called on it, also
    after the move event is posted. *)
Lemma Body_setVelocity_velocity (b : BodyId) (v : Vec2) (s : FreeModeImpl) :
  velocity (bodies (Body_setVelocity b v s) !!! b) = v.
Proof.
  unfold Body_setVelocity. simpl. rewrite lookup_total_insert_eq. reflexivity.
Qed.

Lemma moved_velocity (c : FreeModeSubcomponent) (d : Direction) (v : Vec2)
    (s : FreeModeImpl) :
  velocity (bodies (postMoveEvent c d (Body_setVelocity (body c) v s))
            !!! body c) = v.
Proof. exact (Body_setVelocity_velocity (body c) v s). Qed.

Lemma moved_position (c : FreeModeSubcomponent) (d : Direction) (v : Vec2)
    (s : FreeModeImpl) :
  position (bodies (postMoveEvent c d (Body_setVelocity (body c) v s))
            !!! body c) = position (bodies s !!! body c).
Proof.
  unfold postMoveEvent, Body_setVelocity. simpl.
  rewrite lookup_total_insert_eq. reflexivity.
Qed.

Lemma moved_other (c : FreeModeSubcomponent) (d : Direction) (v : Vec2)
    (s : FreeModeImpl) (b : BodyId) :
  b <> body c ->
  bodies (postMoveEvent c d (Body_setVelocity (body c) v s)) !! b
  = bodies s !! b.
Proof.
  intros Hb. unfold postMoveEvent, Body_setVelocity. simpl.
  apply lookup_insert_ne. congruence.
Qed.

Section MovementProperties.

Variable BLOCK_SZ_WLD : Q.
Variable directionToVector : Direction -> Vec2.
Variable attemptModeTransitionFn :
  EntityId -> Q -> Q -> Direction -> FreeModeImpl -> bool * FreeModeImpl.

Local Abbreviation probeGridX := (probeGridX BLOCK_SZ_WLD directionToVector).
Local Abbreviation probeGridY := (probeGridY BLOCK_SZ_WLD directionToVector).
Local Abbreviation tryLeaveGravRegion :=
  (tryLeaveGravRegion BLOCK_SZ_WLD directionToVector attemptModeTransitionFn).
Local Abbreviation moveAgent :=
  (moveAgent BLOCK_SZ_WLD directionToVector attemptModeTransitionFn).
Local Abbreviation newVelocity := (newVelocity directionToVector).

(** The cell the code probes is the one the description names. *)
Lemma probeGrid_cell (s : FreeModeImpl) (c : FreeModeSubcomponent)
    (d : Direction) :
  probeGridX s c d = probeCellX BLOCK_SZ_WLD directionToVector s c d /\
  probeGridY s c d = probeCellY BLOCK_SZ_WLD directionToVector s c d.
Proof.
  unfold_probe. unfold probeCellX, probeCellY.
  cbn [vec_x vec_y].
  split; apply Qfloor_comp; unfold Qdiv; apply Qmult_comp;
    try reflexivity; ring.
Qed.

Lemma tryLeaveGravRegion_inside (s : FreeModeImpl) (c : FreeModeSubcomponent)
    (d : Direction) :
  Span2d_contains (gravRegion s) (probeGridX s c d) (probeGridY s c d) = true ->
  tryLeaveGravRegion s c d = (false, s).
Proof. intros H. unfold_move. rewrite H. reflexivity. Qed.

Lemma tryLeaveGravRegion_outside (s : FreeModeImpl) (c : FreeModeSubcomponent)
    (d : Direction) :
  Span2d_contains (gravRegion s) (probeGridX s c d) (probeGridY s c d) = false ->
  tryLeaveGravRegion s c d
  = attemptModeTransitionFn (entityId c)
      (inject_Z (probeGridX s c d) * BLOCK_SZ_WLD)%Q
      (inject_Z (probeGridY s c d) * BLOCK_SZ_WLD)%Q d s.
Proof. intros H. unfold_move. rewrite H. reflexivity. Qed.

Lemma moveAgent_fired (s s1 : FreeModeImpl) (id : EntityId)
    (c : FreeModeSubcomponent) (d : Direction) :
  getComponent s id = Return c ->
  tryLeaveGravRegion s c d = (true, s1) ->
  moveAgent s id d = Return (true, postMoveEvent c d s1).
Proof.
  intros Hc Htry. unfold_move. rewrite Hc, Htry. reflexivity.
Qed.

Lemma moveAgent_stayed (s s1 : FreeModeImpl) (id : EntityId)
    (c : FreeModeSubcomponent) (d : Direction) :
  getComponent s id = Return c ->
  tryLeaveGravRegion s c d = (false, s1) ->
  moveAgent s id d
  = if Direction_eqb d UP && negb (bodyGrounded s1 (entityId c))
    then Return (false, s1)
    else if Direction_eqb d DOWN
    then Return (true, s1)
    else Return (true, postMoveEvent c d
                         (Body_setVelocity (body c) (newVelocity s1 c d) s1)).
Proof.
  intros Hc Htry. unfold_move. rewrite Hc, Htry. reflexivity.
Qed.

(** C1: when the probed cell (the centre plus half a block plus a quarter
    of a block along the direction, floored to the grid) is outside the
    gravity region, the first thing [moveAgent] does with the component is
    to call the transition callback on that cell; if the callback answers
    [true], [moveAgent] returns [true] in the state the callback left,
    with the move event posted and no body touched. *)
Theorem moveAgent_offers_transition_first (s : FreeModeImpl) (id : EntityId)
    (c : FreeModeSubcomponent) (d : Direction) :
  getComponent s id = Return c ->
  let gridX := probeCellX BLOCK_SZ_WLD directionToVector s c d in
  let gridY := probeCellY BLOCK_SZ_WLD directionToVector s c d in
  Span2d_contains (gravRegion s) gridX gridY = false ->
  let answer :=
    attemptModeTransitionFn (entityId c) (inject_Z gridX * BLOCK_SZ_WLD)%Q
                            (inject_Z gridY * BLOCK_SZ_WLD)%Q d s in
  tryLeaveGravRegion s c d = answer /\
  (fst answer = true ->
   moveAgent s id d = Return (true, postMoveEvent c d (snd answer)) /\
   bodies (postMoveEvent c d (snd answer)) = bodies (snd answer)).
Proof.
  intros Hc gridX gridY Hout answer.
  destruct (probeGrid_cell s c d) as [Hx Hy].
  assert (Htry : tryLeaveGravRegion s c d = answer).
  { rewrite tryLeaveGravRegion_outside; rewrite Hx, Hy; [reflexivity | exact Hout]. }
  split; [exact Htry |].
  intros Hfired. split; [| reflexivity].
  apply moveAgent_fired; [exact Hc |].
  rewrite Htry. destruct answer as [fired s1]. simpl in Hfired. subst fired.
  reflexivity.
Qed.

(** The velocity handed to the body along the axis of the direction. *)
Lemma newVelocity_horizontal (s : FreeModeImpl) (c : FreeModeSubcomponent)
    (d : Direction) :
  axis_aligned directionToVector = true ->
  d = LEFT \/ d = RIGHT ->
  newVelocity s c d
  = {| vec_x := (vec_x (directionToVector d) * PLAYER_VELOCITY_H)%Q;
       vec_y := vec_y (velocity (bodies s !!! body c)) |} /\
  ((vec_x (directionToVector d) * PLAYER_VELOCITY_H == 6)%Q \/
   (vec_x (directionToVector d) * PLAYER_VELOCITY_H == -6)%Q).
Proof.
  unfold axis_aligned. rewrite !andb_true_iff.
  intros [[[_ Hr] _] Hl] Hd.
  assert (H : unit_q (vec_x (directionToVector d)) = true /\
              Qeq_bool (vec_y (directionToVector d)) 0 = true).
  { destruct Hd as [-> | ->]; [apply andb_true_iff in Hl | apply andb_true_iff in Hr];
      assumption. }
  destruct H as [Hx Hy].
  assert (Hk : ~ (PLAYER_VELOCITY_H == 0)%Q) by (unfold PLAYER_VELOCITY_H; lra).
  destruct (scaled_unit _ _ Hx Hk) as [Hnz Hval].
  split; [| exact Hval].
  unfold_newVelocity. cbn [vec_x vec_y].
  rewrite Hnz, (scaled_zero _ PLAYER_VELOCITY_V Hy). reflexivity.
Qed.

Lemma newVelocity_vertical (s : FreeModeImpl) (c : FreeModeSubcomponent)
    (d : Direction) :
  axis_aligned directionToVector = true ->
  d = UP \/ d = DOWN ->
  newVelocity s c d
  = {| vec_x := vec_x (velocity (bodies s !!! body c));
       vec_y := (vec_y (directionToVector d) * PLAYER_VELOCITY_V)%Q |} /\
  ((vec_y (directionToVector d) * PLAYER_VELOCITY_V == 10)%Q \/
   (vec_y (directionToVector d) * PLAYER_VELOCITY_V == -10)%Q).
Proof.
  unfold axis_aligned. rewrite !andb_true_iff.
  intros [[[Hu _] Hdn] _] Hd.
  assert (H : Qeq_bool (vec_x (directionToVector d)) 0 = true /\
              unit_q (vec_y (directionToVector d)) = true).
  { destruct Hd as [-> | ->]; [apply andb_true_iff in Hu | apply andb_true_iff in Hdn];
      assumption. }
  destruct H as [Hx Hy].
  assert (Hk : ~ (PLAYER_VELOCITY_V == 0)%Q) by (unfold PLAYER_VELOCITY_V; lra).
  destruct (scaled_unit _ _ Hy Hk) as [Hnz Hval].
  split; [| exact Hval].
  unfold_newVelocity. cbn [vec_x vec_y].
  rewrite Hnz, (scaled_zero _ PLAYER_VELOCITY_H Hx). reflexivity.
Qed.

(** C2: when no transition fires on an UP call, the call returns [false]
    in the very state the transition check left if the grounded map has no
    record for the entity, so that no velocity is changed; if the map has
    one, the call returns [true] in a state where the body of the
    component holds a vertical velocity of 10 units (along the vector of
    UP) and the horizontal velocity it had.  The check leaves the state as
    it was whenever the probed cell is inside the region. *)
Theorem moveAgent_up_needs_ground (s s1 : FreeModeImpl) (id : EntityId)
    (c : FreeModeSubcomponent) :
  axis_aligned directionToVector = true ->
  getComponent s id = Return c ->
  tryLeaveGravRegion s c UP = (false, s1) ->
  (grounded s1 !! entityId c = None ->
   moveAgent s id UP = Return (false, s1)) /\
  (is_Some (grounded s1 !! entityId c) ->
   exists (vy : Q) (s' : FreeModeImpl),
     ((vy == 10)%Q \/ (vy == -10)%Q) /\
     moveAgent s id UP = Return (true, s') /\
     s' = postMoveEvent c UP
            (Body_setVelocity (body c)
               {| vec_x := vec_x (velocity (bodies s1 !!! body c));
                  vec_y := vy |} s1) /\
     velocity (bodies s' !!! body c)
     = {| vec_x := vec_x (velocity (bodies s1 !!! body c)); vec_y := vy |} /\
     position (bodies s' !!! body c) = position (bodies s1 !!! body c) /\
     (forall b, b <> body c -> bodies s' !! b = bodies s1 !! b)) /\
  (Span2d_contains (gravRegion s)
     (probeCellX BLOCK_SZ_WLD directionToVector s c UP)
     (probeCellY BLOCK_SZ_WLD directionToVector s c UP) = true ->
   s1 = s).
Proof.
  intros Hax Hc Htry.
  rewrite (moveAgent_stayed s s1 id c UP Hc Htry). cbn [Direction_eqb andb].
  unfold bodyGrounded. split; [| split].
  - intros Hnone. rewrite Hnone.
    rewrite bool_decide_eq_false_2; [reflexivity |].
    intros [x Hx]. discriminate Hx.
  - intros Hsome. rewrite bool_decide_eq_true_2 by exact Hsome.
    cbn [negb].
    destruct (newVelocity_vertical s1 c UP Hax (or_introl eq_refl)) as [Hv Hval].
    exists (vec_y (directionToVector UP) * PLAYER_VELOCITY_V)%Q.
    eexists. split; [exact Hval |]. rewrite Hv.
    split; [reflexivity |]. split; [reflexivity |].
    split; [apply moved_velocity |].
    split; [apply moved_position |].
    intros b Hb. apply moved_other. exact Hb.
  - intros Hin. destruct (probeGrid_cell s c UP) as [Hx Hy].
    rewrite <- Hx, <- Hy in Hin.
    rewrite (tryLeaveGravRegion_inside s c UP Hin) in Htry.
    inversion Htry. reflexivity.
Qed.

(** C7: when no transition fires, LEFT and RIGHT leave the body of the
    component with a horizontal velocity of 6 units along the direction
    and the vertical velocity it had; UP on a grounded entity leaves it
    with a vertical velocity of 10 units and the horizontal velocity it
    had; DOWN returns [true] in the state the transition check left, so
    with every velocity as it was.  Whether or not a transition fires,
    DOWN returns [true] and the bodies are those the transition check
    left. *)
Theorem moveAgent_sets_one_axis (s : FreeModeImpl) (id : EntityId)
    (c : FreeModeSubcomponent) :
  axis_aligned directionToVector = true ->
  getComponent s id = Return c ->
  (forall (d : Direction) (s1 : FreeModeImpl),
     tryLeaveGravRegion s c d = (false, s1) ->
     let old := velocity (bodies s1 !!! body c) in
     match d with
     | LEFT | RIGHT =>
         exists (vx : Q) (s' : FreeModeImpl),
           ((vx == 6)%Q \/ (vx == -6)%Q) /\
           moveAgent s id d = Return (true, s') /\
           s' = postMoveEvent c d
                  (Body_setVelocity (body c)
                     {| vec_x := vx; vec_y := vec_y old |} s1) /\
           velocity (bodies s' !!! body c)
           = {| vec_x := vx; vec_y := vec_y old |} /\
           position (bodies s' !!! body c) = position (bodies s1 !!! body c) /\
           (forall b, b <> body c -> bodies s' !! b = bodies s1 !! b)
     | UP =>
         bodyGrounded s1 (entityId c) = true ->
         exists (vy : Q) (s' : FreeModeImpl),
           ((vy == 10)%Q \/ (vy == -10)%Q) /\
           moveAgent s id d = Return (true, s') /\
           s' = postMoveEvent c d
                  (Body_setVelocity (body c)
                     {| vec_x := vec_x old; vec_y := vy |} s1) /\
           velocity (bodies s' !!! body c)
           = {| vec_x := vec_x old; vec_y := vy |} /\
           position (bodies s' !!! body c) = position (bodies s1 !!! body c) /\
           (forall b, b <> body c -> bodies s' !! b = bodies s1 !! b)
     | DOWN => moveAgent s id d = Return (true, s1)
     end) /\
  (exists s' : FreeModeImpl,
     moveAgent s id DOWN = Return (true, s') /\
     bodies s' = bodies (snd (tryLeaveGravRegion s c DOWN))).
Proof.
  intros Hax Hc. split.
  - intros d s1 Htry old.
    rewrite (moveAgent_stayed s s1 id c d Hc Htry).
    destruct d; cbn [Direction_eqb andb].
    + intros Hg. rewrite Hg. cbn [negb].
      destruct (newVelocity_vertical s1 c UP Hax (or_introl eq_refl)) as [Hv Hval].
      eexists. eexists. split; [exact Hval |]. rewrite Hv.
      split; [reflexivity |]. split; [reflexivity |].
      split; [apply moved_velocity |].
      split; [apply moved_position |].
      intros b Hb. apply moved_other. exact Hb.
    + destruct (newVelocity_horizontal s1 c RIGHT Hax (or_intror eq_refl))
        as [Hv Hval].
      eexists. eexists. split; [exact Hval |]. rewrite Hv.
      split; [reflexivity |]. split; [reflexivity |].
      split; [apply moved_velocity |].
      split; [apply moved_position |].
      intros b Hb. apply moved_other. exact Hb.
    + reflexivity.
    + destruct (newVelocity_horizontal s1 c LEFT Hax (or_introl eq_refl))
        as [Hv Hval].
      eexists. eexists. split; [exact Hval |]. rewrite Hv.
      split; [reflexivity |]. split; [reflexivity |].
      split; [apply moved_velocity |].
      split; [apply moved_position |].
      intros b Hb. apply moved_other. exact Hb.
  - destruct (tryLeaveGravRegion s c DOWN) as [fired s1] eqn:Htry.
    destruct fired.
    + rewrite (moveAgent_fired s s1 id c DOWN Hc Htry).
      eexists. split; reflexivity.
    + rewrite (moveAgent_stayed s s1 id c DOWN Hc Htry).
      cbn [Direction_eqb andb]. eexists. split; reflexivity.
Qed.

End MovementProperties.

Lemma moveAgent_offers_transition_first_witness :
  getComponent Sample.world 1%N = Return Sample.player /\
  Span2d_contains (gravRegion Sample.world) 5 1 = false /\
  moveAgent Sample.BLOCK_SZ_WLD Sample.directionToVector Sample.always
            Sample.world 1%N RIGHT
  = Return (true, postMoveEvent Sample.player RIGHT
                    (removeComponent Sample.world Sample.player)).
Proof.
  split; [reflexivity |]. split; [reflexivity |].
  apply (moveAgent_offers_transition_first Sample.BLOCK_SZ_WLD
           Sample.directionToVector Sample.always Sample.world 1%N
           Sample.player RIGHT); reflexivity.
Defined.

Lemma moveAgent_up_needs_ground_witness :
  moveAgent Sample.BLOCK_SZ_WLD Sample.directionToVector Sample.never
            Sample.world 1%N UP
  = Return (false, Sample.world) /\
  exists (vy : Q) (s' : FreeModeImpl),
    ((vy == 10)%Q \/ (vy == -10)%Q) /\
    moveAgent Sample.BLOCK_SZ_WLD Sample.directionToVector Sample.never
              Sample.standing 1%N UP
    = Return (true, s') /\
    velocity (bodies s' !!! 7%N) = {| vec_x := 1; vec_y := vy |}.
Proof.
  split.
  - apply (moveAgent_up_needs_ground Sample.BLOCK_SZ_WLD
             Sample.directionToVector Sample.never Sample.world Sample.world
             1%N Sample.player); reflexivity.
  - destruct (moveAgent_up_needs_ground Sample.BLOCK_SZ_WLD
                Sample.directionToVector Sample.never Sample.standing
                Sample.standing 1%N Sample.player eq_refl eq_refl eq_refl)
      as (_ & Hup & _).
    destruct Hup as (vy & s' & Hvy & Hmove & _ & Hvel & _);
      [vm_compute; eauto |].
    exists vy, s'. split; [exact Hvy |]. split; [exact Hmove | exact Hvel].
Defined.

Lemma moveAgent_sets_one_axis_witness :
  (exists (vx : Q) (s' : FreeModeImpl),
     ((vx == 6)%Q \/ (vx == -6)%Q) /\
     moveAgent Sample.BLOCK_SZ_WLD Sample.directionToVector Sample.never
               Sample.world 1%N LEFT
     = Return (true, s') /\
     velocity (bodies s' !!! 7%N) = {| vec_x := vx; vec_y := 2 |}) /\
  moveAgent Sample.BLOCK_SZ_WLD Sample.directionToVector Sample.never
            Sample.world 1%N DOWN
  = Return (true, Sample.world).
Proof.
  pose proof (moveAgent_sets_one_axis Sample.BLOCK_SZ_WLD
                Sample.directionToVector Sample.never Sample.world 1%N
                Sample.player eq_refl eq_refl) as [H _].
  split.
  - destruct (H LEFT Sample.world eq_refl)
      as (vx & s' & Hvx & Hmove & _ & Hvel & _).
    exists vx, s'. split; [exact Hvx |]. split; [exact Hmove | exact Hvel].
  - apply (H DOWN Sample.world). reflexivity.
Defined.

(** ** The collision handlers *)

Lemma with_grounded_self (s : FreeModeImpl) : with_grounded (grounded s) s = s.
Proof. destruct s; reflexivity. Qed.

Lemma core_fields (s s' : FreeModeImpl) :
  core s = core s' ->
  componentsByBodyId s = componentsByBodyId s' /\
  collisions s = collisions s' /\
  posted s = posted s'.
Proof.
  intros H.
  change (componentsByBodyId (core s) = componentsByBodyId (core s') /\
          collisions (core s) = collisions (core s') /\
          posted (core s) = posted (core s')).
  rewrite H. auto.
Qed.

(** The contact loops write the grounded map and nothing else. *)
Lemma groundContactFor_grounded_only o ct s :
  exists g, groundContactFor o ct s = with_grounded g s.
Proof.
  unfold groundContactFor. destruct o as [c|].
  - destruct (isGroundContact _ ct); eexists; [reflexivity |].
    symmetry. apply with_grounded_self.
  - eexists. symmetry. apply with_grounded_self.
Qed.

Lemma endContactFor_grounded_only o ct s :
  exists g, endContactFor o ct s = with_grounded g s.
Proof.
  unfold endContactFor. destruct o as [c|].
  - destruct (isStoredContact s _ ct); eexists; [reflexivity |].
    symmetry. apply with_grounded_self.
  - eexists. symmetry. apply with_grounded_self.
Qed.

Lemma activeContacts_grounded_only a b cts s :
  exists g, fold_left (activeContactStep a b) cts s = with_grounded g s.
Proof.
  revert s. induction cts as [|ct cts IH]; intros s; simpl.
  - eexists. symmetry. apply with_grounded_self.
  - destruct (IH (activeContactStep a b s ct)) as [g ->].
    unfold activeContactStep.
    destruct (groundContactFor_grounded_only a ct s) as [g1 ->].
    destruct (groundContactFor_grounded_only b ct (with_grounded g1 s)) as [g2 ->].
    eexists. reflexivity.
Qed.

Lemma endContacts_grounded_only a b cts s :
  exists g, fold_left (endContactStep a b) cts s = with_grounded g s.
Proof.
  revert s. induction cts as [|ct cts IH]; intros s; simpl.
  - eexists. symmetry. apply with_grounded_self.
  - destruct (IH (endContactStep a b s ct)) as [g ->].
    unfold endContactStep.
    destruct (endContactFor_grounded_only a ct s) as [g1 ->].
    destruct (endContactFor_grounded_only b ct (with_grounded g1 s)) as [g2 ->].
    eexists. reflexivity.
Qed.

Lemma collisionActivePair_core (s : FreeModeImpl) (p : Pair) :
  core (collisionActivePair s p) = core (registerPair s p).
Proof.
  unfold collisionActivePair.
  destruct (activeContacts_grounded_only
              (componentsByBodyId s !! bodyA p) (componentsByBodyId s !! bodyB p)
              (activeContacts p) (registerPair s p)) as [g ->].
  reflexivity.
Qed.

Lemma collisionEndPair_core (s : FreeModeImpl) (p : Pair) :
  core (collisionEndPair s p) = core (unregisterPair s p).
Proof.
  unfold collisionEndPair.
  destruct (endContacts_grounded_only
              (componentsByBodyId s !! bodyA p) (componentsByBodyId s !! bodyB p)
              (contacts p) (unregisterPair s p)) as [g ->].
  reflexivity.
Qed.






(** A pair that is in the table adds nothing to the table or to the log. *)
Lemma registerPair_known (s : FreeModeImpl) (p : Pair) :
  is_Some (collisions s !! pair_id p) -> registerPair s p = s.
Proof. intros [q Hq]. unfold registerPair. rewrite Hq. reflexivity. Qed.

Lemma collisionActivePair_collisions (s : FreeModeImpl) (p : Pair) :
  collisions (collisionActivePair s p)
  = match collisions s !! pair_id p with
    | None => <[pair_id p := p]> (collisions s)
    | Some _ => collisions s
    end.
Proof.
  change (collisions (core (collisionActivePair s p)) = 
          match collisions s !! pair_id p with
          | None => <[pair_id p := p]> (collisions s)
          | Some _ => collisions s
          end).
  rewrite collisionActivePair_core. unfold registerPair.
  destruct (collisions s !! pair_id p); [reflexivity |].
  destruct (componentsByBodyId s !! bodyA p),
    (componentsByBodyId s !! bodyB p); reflexivity.
Qed.

Lemma collisionEndPair_collisions (s : FreeModeImpl) (p : Pair) :
  collisions (collisionEndPair s p) = delete (pair_id p) (collisions s).
Proof.
  change (collisions (core (collisionEndPair s p))
          = delete (pair_id p) (collisions s)).
  rewrite collisionEndPair_core. unfold unregisterPair.
  destruct (collisions s !! pair_id p) eqn:E; [reflexivity |].
  simpl. symmetry. apply delete_id. exact E.
Qed.

Lemma collisionEndPair_posted (s : FreeModeImpl) (p : Pair) :
  posted (collisionEndPair s p) = posted s.
Proof.
  change (posted (core (collisionEndPair s p)) = posted s).
  rewrite collisionEndPair_core. unfold unregisterPair.
  destruct (collisions s !! pair_id p); reflexivity.
Qed.



Lemma collisionEnd_removes_pair (ps : list Pair) (s : FreeModeImpl) (pid : PairId) :
  collisions s !! pid = None \/
  existsb (fun q => N.eqb (pair_id q) pid) ps = true ->
  collisions (collisionEnd s ps) !! pid = None.
Proof.
  revert s. induction ps as [|q ps IH]; intros s H.
  - destruct H as [H | H]; [exact H | discriminate H].
  - unfold collisionEnd in *. simpl. apply IH.
    rewrite collisionEndPair_collisions.
    destruct (N.eqb_spec (pair_id q) pid) as [-> | Hne].
    + left. apply lookup_delete_eq.
    + rewrite lookup_delete_ne by exact Hne.
      destruct H as [H | H]; [left; exact H |].
      simpl in H. apply orb_true_iff in H as [H | H]; [| right; exact H].
      apply N.eqb_eq in H. contradiction.
Qed.

Lemma collisionEnd_posted (ps : list Pair) (s : FreeModeImpl) :
  posted (collisionEnd s ps) = posted s.
Proof.
  revert s. induction ps as [|q ps IH]; intros s; [reflexivity |].
  unfold collisionEnd in *. simpl. rewrite IH. apply collisionEndPair_posted.
Qed.



(** A "collisionActive" batch all of whose pairs are in the collision
    table posts nothing and leaves the table as it is. *)
Lemma collisionActive_known_posts_nothing (ps : list Pair) (s : FreeModeImpl) :
  (forall p, In p ps -> is_Some (collisions s !! pair_id p)) ->
  posted (collisionActive s ps) = posted s /\
  collisions (collisionActive s ps) = collisions s.
Proof.
  revert s. induction ps as [|q ps IH]; intros s H; [auto |].
  unfold collisionActive in *. simpl.
  assert (Hq : is_Some (collisions s !! pair_id q)) by (apply H; left; reflexivity).
  assert (Hcore : core (collisionActivePair s q) = core s).
  { rewrite collisionActivePair_core, registerPair_known; [reflexivity | exact Hq]. }
  destruct (core_fields _ _ Hcore) as (_ & Hc & Hp).
  destruct (IH (collisionActivePair s q)) as [IHp IHc].
  { intros p Hp'. rewrite Hc. apply H. right. exact Hp'. }
  split; congruence.
Qed.




(** ** The grounded record *)

Lemma groundContactFor_sets (c : FreeModeSubcomponent) (ct : Contact)
    (s : FreeModeImpl) :
  isGroundContact (bodies s !!! body c) ct = true ->
  grounded (groundContactFor (Some c) ct s) !! entityId c = Some (contact_id ct).
Proof.
  intros H. unfold groundContactFor. rewrite H. simpl.
  apply lookup_insert_eq.
Qed.

(** A step of the "collisionActive" contact loop either leaves the record
    of an entity alone or stores the id of the contact at hand. *)
Lemma groundContactFor_grounded (o : option FreeModeSubcomponent) (ct : Contact)
    (s : FreeModeImpl) (e : EntityId) :
  grounded (groundContactFor o ct s) !! e = grounded s !! e \/
  grounded (groundContactFor o ct s) !! e = Some (contact_id ct).
Proof.
  unfold groundContactFor. destruct o as [c|]; [| auto].
  destruct (isGroundContact _ ct); [| auto]. simpl.
  destruct (N.eq_dec (entityId c) e) as [<- | Hne].
  - right. apply lookup_insert_eq.
  - left. apply lookup_insert_ne. exact Hne.
Qed.

Lemma groundContactFor_bodies (o : option FreeModeSubcomponent) (ct : Contact)
    (s : FreeModeImpl) :
  bodies (groundContactFor o ct s) = bodies s.
Proof.
  destruct (groundContactFor_grounded_only o ct s) as [g ->]. reflexivity.
Qed.

Lemma activeContactStep_keeps a b (s : FreeModeImpl) (ct : Contact) (e : EntityId) :
  is_Some (grounded s !! e) ->
  is_Some (grounded (activeContactStep a b s ct) !! e).
Proof.
  intros H. unfold activeContactStep.
  destruct (groundContactFor_grounded b ct (groundContactFor a ct s) e)
    as [-> | ->]; [| eauto].
  destruct (groundContactFor_grounded a ct s e) as [-> | ->]; eauto.
Qed.

Lemma collisionActivePair_keeps_grounded (s : FreeModeImpl) (p : Pair)
    (e : EntityId) :
  is_Some (grounded s !! e) ->
  is_Some (grounded (collisionActivePair s p) !! e).
Proof.
  intros H. unfold collisionActivePair.
  assert (H1 : is_Some (grounded (registerPair s p) !! e)).
  { unfold registerPair. destruct (collisions s !! pair_id p); [exact H |].
    destruct (componentsByBodyId s !! bodyA p),
      (componentsByBodyId s !! bodyB p); exact H. }
  generalize dependent (registerPair s p).
  generalize (componentsByBodyId s !! bodyA p) (componentsByBodyId s !! bodyB p).
  intros a b.
  induction (activeContacts p) as [|ct cts IH]; intros t Ht; [exact Ht |].
  simpl. apply IH, activeContactStep_keeps, Ht.
Qed.

Lemma collisionActive_keeps_grounded (ps : list Pair) (s : FreeModeImpl)
    (e : EntityId) :
  is_Some (grounded s !! e) ->
  is_Some (grounded (collisionActive s ps) !! e).
Proof.
  revert s. induction ps as [|p ps IH]; intros s H; [exact H |].
  unfold collisionActive in *. simpl.
  apply IH, collisionActivePair_keeps_grounded, H.
Qed.

(** A step of the "collisionEnd" contact loop either leaves the record of
    an entity alone, or deletes it because it holds the id of the contact
    at hand and the step is for a component of that entity. *)
Lemma endContactFor_grounded (o : option FreeModeSubcomponent) (ct : Contact)
    (s : FreeModeImpl) (e : EntityId) :
  grounded (endContactFor o ct s) !! e = grounded s !! e \/
  (grounded (endContactFor o ct s) !! e = None /\
   grounded s !! e = Some (contact_id ct) /\
   exists c, o = Some c /\ entityId c = e).
Proof.
  unfold endContactFor. destruct o as [c|]; [| auto].
  unfold isStoredContact.
  destruct (grounded s !! entityId c) as [cid|] eqn:Hg; [| auto].
  destruct (String.eqb_spec (contact_id ct) cid) as [-> | Hne]; [| auto].
  simpl. destruct (N.eq_dec (entityId c) e) as [<- | Hne].
  - right. split; [apply lookup_delete_eq |]. split; [exact Hg |]. eauto.
  - left. apply lookup_delete_ne. exact Hne.
Qed.

Lemma endContactFor_clears (c : FreeModeSubcomponent) (ct : Contact)
    (s : FreeModeImpl) :
  grounded s !! entityId c = Some (contact_id ct) ->
  grounded (endContactFor (Some c) ct s) !! entityId c = None.
Proof.
  intros H. unfold endContactFor, isStoredContact. rewrite H.
  rewrite String.eqb_refl. simpl. apply lookup_delete_eq.
Qed.

Lemma endContactFor_stays_clear (o : option FreeModeSubcomponent) (ct : Contact)
    (s : FreeModeImpl) (e : EntityId) :
  grounded s !! e = None -> grounded (endContactFor o ct s) !! e = None.
Proof.
  intros H. destruct (endContactFor_grounded o ct s e) as [-> | [H' _]];
    assumption.
Qed.

Lemma endContactStep_grounded a b (s : FreeModeImpl) (ct : Contact) (e : EntityId) :
  grounded (endContactStep a b s ct) !! e = grounded s !! e \/
  (grounded (endContactStep a b s ct) !! e = None /\
   grounded s !! e = Some (contact_id ct) /\
   exists c, (a = Some c \/ b = Some c) /\ entityId c = e).
Proof.
  unfold endContactStep.
  destruct (endContactFor_grounded a ct s e) as [Ha | (Ha & Hs & c & Hc & He)].
  - destruct (endContactFor_grounded b ct (endContactFor a ct s) e)
      as [Hb | (Hb & Hs & c & Hc & He)].
    + left. congruence.
    + right. split; [exact Hb |]. split; [congruence |]. eauto.
  - right. split; [apply endContactFor_stays_clear, Ha |].
    split; [exact Hs |]. eauto.
Qed.

Lemma endContacts_grounded a b (cts : list Contact) (s : FreeModeImpl)
    (e : EntityId) :
  let s' := fold_left (endContactStep a b) cts s in
  grounded s' !! e = grounded s !! e \/
  (grounded s' !! e = None /\
   exists ct c, In ct cts /\ grounded s !! e = Some (contact_id ct) /\
                (a = Some c \/ b = Some c) /\ entityId c = e).
Proof.
  revert s. induction cts as [|ct cts IH]; intros s; simpl; [auto |].
  destruct (IH (endContactStep a b s ct))
    as [Hrest | (Hrest & ct' & c & Hin & Hst & Hc & He)];
    destruct (endContactStep_grounded a b s ct e)
      as [Hstep | (Hstep & Hs & c0 & Hc0 & He0)].
  - left. congruence.
  - right. split; [congruence |]. exists ct, c0. auto.
  - right. split; [exact Hrest |]. exists ct', c.
    split; [auto |]. split; [congruence | auto].
  - right. split; [exact Hrest |]. exists ct, c0. auto.
Qed.

Lemma unregisterPair_fields (s : FreeModeImpl) (p : Pair) :
  grounded (unregisterPair s p) = grounded s /\
  componentsByBodyId (unregisterPair s p) = componentsByBodyId s.
Proof.
  unfold unregisterPair. destruct (collisions s !! pair_id p); auto.
Qed.

Lemma collisionEndPair_componentsByBodyId (s : FreeModeImpl) (p : Pair) :
  componentsByBodyId (collisionEndPair s p) = componentsByBodyId s.
Proof.
  change (componentsByBodyId (core (collisionEndPair s p))
          = componentsByBodyId s).
  rewrite collisionEndPair_core.
  apply (unregisterPair_fields s p).
Qed.

Lemma collisionEndPair_grounded (s : FreeModeImpl) (p : Pair) (e : EntityId) :
  grounded (collisionEndPair s p) !! e = grounded s !! e \/
  (grounded (collisionEndPair s p) !! e = None /\
   exists ct, endedBy (componentsByBodyId s) e (grounded s !! e) p ct).
Proof.
  unfold collisionEndPair, endedBy.
  destruct (unregisterPair_fields s p) as [Hg _].
  destruct (endContacts_grounded
              (componentsByBodyId s !! bodyA p) (componentsByBodyId s !! bodyB p)
              (contacts p) (unregisterPair s p) e)
    as [H | (H & ct & c & Hin & Hst & Hc & He)]; rewrite Hg in *.
  - left. exact H.
  - right. split; [exact H |]. exists ct. eauto.
Qed.

Lemma collisionEnd_grounded (ps : list Pair) (s : FreeModeImpl) (e : EntityId) :
  grounded (collisionEnd s ps) !! e = grounded s !! e \/
  (grounded (collisionEnd s ps) !! e = None /\
   exists p ct, In p ps /\
                endedBy (componentsByBodyId s) e (grounded s !! e) p ct).
Proof.
  revert s. induction ps as [|p ps IH]; intros s; [auto |].
  unfold collisionEnd in *. simpl.
  destruct (IH (collisionEndPair s p)) as [Hrest | (Hrest & q & ct & Hin & Hby)];
    destruct (collisionEndPair_grounded s p e) as [Hstep | (Hstep & ct0 & Hby0)].
  - left. congruence.
  - right. split; [congruence |]. exists p, ct0. auto.
  - right. split; [exact Hrest |]. exists q, ct.
    rewrite collisionEndPair_componentsByBodyId, Hstep in Hby. auto.
  - right. split; [exact Hrest |]. exists p, ct0. auto.
Qed.

(** The handlers leave the bodies and the component tables alone. *)
Lemma untouched_refl (s : FreeModeImpl) : untouched s s.
Proof. repeat split. Qed.

Lemma untouched_trans (s1 s2 s3 : FreeModeImpl) :
  untouched s1 s2 -> untouched s2 s3 -> untouched s1 s3.
Proof.
  unfold untouched. intros (A1 & A2 & A3 & A4 & A5) (B1 & B2 & B3 & B4 & B5).
  repeat split; congruence.
Qed.

Lemma untouched_core (s s' : FreeModeImpl) :
  untouched (core s) (core s') -> untouched s s'.
Proof. intros H. exact H. Qed.

Lemma registerPair_untouched (s : FreeModeImpl) (p : Pair) :
  untouched s (registerPair s p).
Proof.
  unfold registerPair. destruct (collisions s !! pair_id p).
  - apply untouched_refl.
  - destruct (componentsByBodyId s !! bodyA p),
      (componentsByBodyId s !! bodyB p); repeat split.
Qed.

Lemma unregisterPair_untouched (s : FreeModeImpl) (p : Pair) :
  untouched s (unregisterPair s p).
Proof.
  unfold unregisterPair. destruct (collisions s !! pair_id p); repeat split.
Qed.

Lemma collisionActivePair_untouched (s : FreeModeImpl) (p : Pair) :
  untouched s (collisionActivePair s p).
Proof.
  apply untouched_core. rewrite collisionActivePair_core.
  apply (registerPair_untouched s p).
Qed.

Lemma collisionEndPair_untouched (s : FreeModeImpl) (p : Pair) :
  untouched s (collisionEndPair s p).
Proof.
  apply untouched_core. rewrite collisionEndPair_core.
  apply (unregisterPair_untouched s p).
Qed.

Lemma collisionActive_untouched (ps : list Pair) (s : FreeModeImpl) :
  untouched s (collisionActive s ps).
Proof.
  revert s. induction ps as [|p ps IH]; intros s; [apply untouched_refl |].
  unfold collisionActive in *. simpl.
  eapply untouched_trans; [apply collisionActivePair_untouched | apply IH].
Qed.

Lemma collisionEnd_untouched (ps : list Pair) (s : FreeModeImpl) :
  untouched s (collisionEnd s ps).
Proof.
  revert s. induction ps as [|p ps IH]; intros s; [apply untouched_refl |].
  unfold collisionEnd in *. simpl.
  eapply untouched_trans; [apply collisionEndPair_untouched | apply IH].
Qed.

Lemma collisionEnd_stays_clear (ps : list Pair) (s : FreeModeImpl)
    (e : EntityId) :
  grounded s !! e = None -> grounded (collisionEnd s ps) !! e = None.
Proof.
  intros H. destruct (collisionEnd_grounded ps s e) as [-> | [H' _]];
    assumption.
Qed.

(** *** The record after a whole "collisionActive" batch *)

Lemma overwritten_app (old : option string) (l1 l2 : list string) :
  overwritten old (l1 ++ l2) = overwritten (overwritten old l1) l2.
Proof.
  unfold overwritten. rewrite last_app.
  destruct (last l2); [reflexivity |]. destruct (last l1); reflexivity.
Qed.

Lemma groundContactFor_overwrites (o : option FreeModeSubcomponent)
    (ct : Contact) (s : FreeModeImpl) (e : EntityId) :
  grounded (groundContactFor o ct s) !! e
  = overwritten (grounded s !! e) (groundingOf s e o ct).
Proof.
  unfold groundContactFor, groundingOf. destruct o as [c|]; [| reflexivity].
  destruct (isGroundContact _ ct); rewrite ?andb_false_r; [| reflexivity].
  rewrite andb_true_r. simpl.
  destruct (N.eqb_spec (entityId c) e) as [<- | Hne].
  - apply lookup_insert_eq.
  - apply lookup_insert_ne. exact Hne.
Qed.

Lemma groundingOf_bodies (s t : FreeModeImpl) (e : EntityId)
    (o : option FreeModeSubcomponent) (ct : Contact) :
  bodies t = bodies s -> groundingOf t e o ct = groundingOf s e o ct.
Proof. intros H. unfold groundingOf. rewrite H. reflexivity. Qed.

Lemma activeContacts_overwrite a b (s : FreeModeImpl) (e : EntityId)
    (cts : list Contact) (t : FreeModeImpl) :
  bodies t = bodies s ->
  grounded (fold_left (activeContactStep a b) cts t) !! e
  = overwritten (grounded t !! e)
      (flat_map (fun ct => groundingOf s e a ct ++ groundingOf s e b ct) cts).
Proof.
  revert t. induction cts as [|ct cts IH]; intros t Ht; [reflexivity |].
  simpl. rewrite overwritten_app, IH.
  - f_equal. unfold activeContactStep.
    rewrite overwritten_app, groundContactFor_overwrites.
    rewrite groundContactFor_overwrites.
    rewrite (groundingOf_bodies s (groundContactFor a ct t)),
      (groundingOf_bodies s t); [reflexivity | exact Ht |].
    rewrite groundContactFor_bodies. exact Ht.
  - unfold activeContactStep. rewrite !groundContactFor_bodies. exact Ht.
Qed.

Lemma pairGroundings_untouched (s t : FreeModeImpl) (e : EntityId) (p : Pair) :
  untouched s t -> pairGroundings t e p = pairGroundings s e p.
Proof.
  intros (_ & _ & Hc & Hb & _). unfold pairGroundings, groundingOf.
  rewrite Hc, Hb. reflexivity.
Qed.

Lemma registerPair_grounded (s : FreeModeImpl) (p : Pair) :
  grounded (registerPair s p) = grounded s.
Proof.
  unfold registerPair. destruct (collisions s !! pair_id p); [reflexivity |].
  destruct (componentsByBodyId s !! bodyA p),
    (componentsByBodyId s !! bodyB p); reflexivity.
Qed.

Lemma collisionActivePair_overwrites (s : FreeModeImpl) (p : Pair)
    (e : EntityId) :
  grounded (collisionActivePair s p) !! e
  = overwritten (grounded s !! e) (pairGroundings s e p).
Proof.
  unfold collisionActivePair, pairGroundings.
  destruct (registerPair_untouched s p) as (_ & _ & _ & Hb & _).
  rewrite (activeContacts_overwrite _ _ s e _ _ Hb), registerPair_grounded.
  reflexivity.
Qed.

Lemma collisionActive_overwrites (ps : list Pair) (s t : FreeModeImpl)
    (e : EntityId) :
  untouched s t ->
  grounded (collisionActive t ps) !! e
  = overwritten (grounded t !! e) (groundings s e ps).
Proof.
  revert t. induction ps as [|p ps IH]; intros t Ht; [reflexivity |].
  unfold collisionActive, groundings in *. simpl.
  rewrite overwritten_app, IH.
  - rewrite collisionActivePair_overwrites, (pairGroundings_untouched s t e p Ht).
    reflexivity.
  - eapply untouched_trans; [exact Ht | apply collisionActivePair_untouched].
Qed.

(** A ground contact of a body of [e] in the batch is among the ids the
    batch stores for [e]. *)
Lemma groundings_elem (s : FreeModeImpl) (e : EntityId) (ps : list Pair)
    (p : Pair) (ct : Contact) (c : FreeModeSubcomponent) :
  In p ps -> In ct (activeContacts p) ->
  componentsByBodyId s !! bodyA p = Some c \/
  componentsByBodyId s !! bodyB p = Some c ->
  entityId c = e ->
  isGroundContact (bodies s !!! body c) ct = true ->
  In (contact_id ct) (groundings s e ps).
Proof.
  intros Hp Hct Hc He Hg. unfold groundings.
  apply in_flat_map. exists p. split; [exact Hp |].
  unfold pairGroundings. apply in_flat_map. exists ct. split; [exact Hct |].
  assert (Hone : groundingOf s e (Some c) ct = [contact_id ct]).
  { unfold groundingOf. rewrite Hg, He, N.eqb_refl. reflexivity. }
  apply in_or_app. destruct Hc as [-> | ->]; [left | right];
    rewrite Hone; left; reflexivity.
Qed.

Lemma overwritten_elem (old : option string) (ids : list string) (cid : string) :
  In cid ids -> exists cid', overwritten old ids = Some cid' /\ In cid' ids.
Proof.
  intros Hin. unfold overwritten.
  destruct ids as [|x ids _] using rev_ind; [destruct Hin |].
  rewrite last_snoc. exists x. split; [reflexivity |].
  apply in_or_app. right. left. reflexivity.
Qed.

(** *** The record after a whole "collisionEnd" batch *)

Lemma endContactStep_clears a b (c : FreeModeSubcomponent) (ct : Contact)
    (s : FreeModeImpl) (e : EntityId) :
  a = Some c \/ b = Some c ->
  entityId c = e ->
  grounded s !! e = Some (contact_id ct) ->
  grounded (endContactStep a b s ct) !! e = None.
Proof.
  intros Hc He Hstored. unfold endContactStep.
  destruct Hc as [-> | ->].
  - apply endContactFor_stays_clear. rewrite <- He.
    apply endContactFor_clears. rewrite He. exact Hstored.
  - destruct (endContactFor_grounded a ct s e) as [Ha | (Ha & _)].
    + rewrite <- He. apply endContactFor_clears. rewrite He, Ha.
      exact Hstored.
    + apply endContactFor_stays_clear, Ha.
Qed.

Lemma endContacts_stay_clear a b (cts : list Contact) (s : FreeModeImpl)
    (e : EntityId) :
  grounded s !! e = None ->
  grounded (fold_left (endContactStep a b) cts s) !! e = None.
Proof.
  intros H. destruct (endContacts_grounded a b cts s e) as [-> | [H' _]];
    assumption.
Qed.

Lemma endContacts_clear a b (c : FreeModeSubcomponent) (ct : Contact)
    (cts : list Contact) (s : FreeModeImpl) (e : EntityId) :
  In ct cts ->
  a = Some c \/ b = Some c ->
  entityId c = e ->
  grounded s !! e = Some (contact_id ct) ->
  grounded (fold_left (endContactStep a b) cts s) !! e = None.
Proof.
  intros Hin Hc He. revert s.
  induction cts as [|ct0 cts IH]; intros s Hstored; [destruct Hin |].
  simpl. destruct Hin as [-> | Hin].
  - apply endContacts_stay_clear.
    apply (endContactStep_clears a b c ct s e Hc He Hstored).
  - destruct (endContactStep_grounded a b s ct0 e) as [Hstep | (Hstep & _)].
    + apply (IH Hin). rewrite Hstep. exact Hstored.
    + apply endContacts_stay_clear, Hstep.
Qed.

Lemma collisionEndPair_clears (s : FreeModeImpl) (p : Pair) (ct : Contact)
    (c : FreeModeSubcomponent) (e : EntityId) :
  In ct (contacts p) ->
  componentsByBodyId s !! bodyA p = Some c \/
  componentsByBodyId s !! bodyB p = Some c ->
  entityId c = e ->
  grounded s !! e = Some (contact_id ct) ->
  grounded (collisionEndPair s p) !! e = None.
Proof.
  intros Hct Hc He Hstored. unfold collisionEndPair.
  apply (endContacts_clear _ _ c ct); [exact Hct | exact Hc | exact He |].
  destruct (unregisterPair_fields s p) as [-> _]. exact Hstored.
Qed.

Lemma collisionEnd_clears (ps : list Pair) (s : FreeModeImpl) (p : Pair)
    (ct : Contact) (c : FreeModeSubcomponent) (e : EntityId) :
  In p ps -> In ct (contacts p) ->
  componentsByBodyId s !! bodyA p = Some c \/
  componentsByBodyId s !! bodyB p = Some c ->
  entityId c = e ->
  grounded s !! e = Some (contact_id ct) ->
  grounded (collisionEnd s ps) !! e = None.
Proof.
  intros Hp Hct. revert s.
  induction ps as [|q ps IH]; intros s Hc He Hstored; [destruct Hp |].
  unfold collisionEnd in *. simpl. destruct Hp as [-> | Hp].
  - apply (collisionEnd_stays_clear ps).
    apply (collisionEndPair_clears s p ct c e Hct Hc He Hstored).
  - destruct (collisionEndPair_grounded s q e) as [Hstep | (Hstep & _)].
    + apply (IH Hp); [| exact He | rewrite Hstep; exact Hstored].
      rewrite collisionEndPair_componentsByBodyId. exact Hc.
    + apply (collisionEnd_stays_clear ps), Hstep.
Qed.

Lemma removeComponent_grounded (s : FreeModeImpl) (c : FreeModeSubcomponent)
    (e : EntityId) :
  grounded (removeComponent s c) !! e
  = if N.eqb (entityId c) e then None else grounded s !! e.
Proof.
  unfold removeComponent. simpl.
  destruct (N.eqb_spec (entityId c) e) as [<- | Hne].
  - apply lookup_delete_eq.
  - apply lookup_delete_ne. exact Hne.
Qed.

(** C4, as the code has it.  A "collisionActive" batch leaves for an
    entity the id of the last ground contact of a body of that entity in
    the batch, whatever was stored before, and leaves the record as it
    was when the batch has none; in particular a batch with a ground
    contact of the entity leaves a record, and the handler never deletes
    one.  A "collisionEnd" batch deletes the record when it holds a
    contact of the stored id in a pair with a body of the entity, and
    leaves the record as it is when it holds no contact of the stored id.
    The record is deleted by no other call but [removeComponent] for the
    component of the entity, which deletes it whatever contact is
    stored. *)
Theorem grounded_record_lifecycle (s : FreeModeImpl) (e : EntityId) :
  (forall a b (c : FreeModeSubcomponent) (ct : Contact),
     a = Some c \/ b = Some c ->
     entityId c = e ->
     isGroundContact (bodies s !!! body c) ct = true ->
     grounded (activeContactStep a b s ct) !! e = Some (contact_id ct)) /\
  (forall ps : list Pair,
     grounded (collisionActive s ps) !! e
     = overwritten (grounded s !! e) (groundings s e ps)) /\
  (forall (ps : list Pair) (p : Pair) (ct : Contact)
          (c : FreeModeSubcomponent),
     In p ps -> In ct (activeContacts p) ->
     componentsByBodyId s !! bodyA p = Some c \/
     componentsByBodyId s !! bodyB p = Some c ->
     entityId c = e ->
     isGroundContact (bodies s !!! body c) ct = true ->
     exists cid,
       grounded (collisionActive s ps) !! e = Some cid /\
       In cid (groundings s e ps)) /\
  (forall ps : list Pair,
     is_Some (grounded s !! e) ->
     is_Some (grounded (collisionActive s ps) !! e)) /\
  (forall a b (c : FreeModeSubcomponent) (ct : Contact),
     a = Some c \/ b = Some c ->
     entityId c = e ->
     grounded s !! e = Some (contact_id ct) ->
     grounded (endContactStep a b s ct) !! e = None) /\
  (forall (ps : list Pair) (p : Pair) (ct : Contact)
          (c : FreeModeSubcomponent),
     In p ps -> In ct (contacts p) ->
     componentsByBodyId s !! bodyA p = Some c \/
     componentsByBodyId s !! bodyB p = Some c ->
     entityId c = e ->
     grounded s !! e = Some (contact_id ct) ->
     grounded (collisionEnd s ps) !! e = None) /\
  (forall (ps : list Pair) (cid : string),
     grounded s !! e = Some cid ->
     (forall p ct, In p ps -> In ct (contacts p) -> contact_id ct <> cid) ->
     grounded (collisionEnd s ps) !! e = Some cid) /\
  (forall (ps : list Pair) (cid : string),
     grounded s !! e = Some cid ->
     grounded (collisionEnd s ps) !! e = None ->
     exists p ct c,
       In p ps /\ In ct (contacts p) /\ contact_id ct = cid /\
       (componentsByBodyId s !! bodyA p = Some c \/
        componentsByBodyId s !! bodyB p = Some c) /\
       entityId c = e) /\
  (forall c : FreeModeSubcomponent,
     grounded (removeComponent s c) !! e
     = if N.eqb (entityId c) e then None else grounded s !! e) /\
  (forall (call : AdapterCall) (cid : string),
     grounded s !! e = Some cid ->
     grounded (adapterCall s call) !! e = None ->
     endsContact cid call \/
     exists c, call = RemoveComponent c /\ entityId c = e).
Proof.
  assert (Honly : forall (ps : list Pair) (cid : string),
            grounded s !! e = Some cid ->
            grounded (collisionEnd s ps) !! e = None ->
            exists p ct c,
              In p ps /\ In ct (contacts p) /\ contact_id ct = cid /\
              (componentsByBodyId s !! bodyA p = Some c \/
               componentsByBodyId s !! bodyB p = Some c) /\
              entityId c = e).
  { intros ps cid Hstored Hgone.
    destruct (collisionEnd_grounded ps s e)
      as [H | (_ & p & ct & Hin & Hct & Heq & c & Hc & He)].
    - rewrite H, Hstored in Hgone. discriminate Hgone.
    - rewrite Hstored in Heq. inversion Heq; subst.
      exists p, ct, c. auto. }
  split; [| split; [| split; [| split; [| split; [| split; [| split;
    [| split; [| split]]]]]]]].
  - intros a b c ct Hc He Hground. unfold activeContactStep.
    destruct Hc as [-> | ->].
    + destruct (groundContactFor_grounded b ct (groundContactFor (Some c) ct s) e)
        as [-> | ->]; [| reflexivity].
      rewrite <- He. apply groundContactFor_sets, Hground.
    + rewrite <- He. apply groundContactFor_sets.
      rewrite groundContactFor_bodies. exact Hground.
  - intros ps. apply collisionActive_overwrites, untouched_refl.
  - intros ps p ct c Hp Hct Hc He Hg.
    rewrite (collisionActive_overwrites ps s s e (untouched_refl s)).
    apply (overwritten_elem _ _ (contact_id ct)).
    apply (groundings_elem s e ps p ct c); assumption.
  - intros ps. apply collisionActive_keeps_grounded.
  - intros a b c ct. apply endContactStep_clears.
  - intros ps p ct c. apply collisionEnd_clears.
  - intros ps cid Hstored Hother.
    destruct (collisionEnd_grounded ps s e)
      as [-> | (_ & p & ct & Hin & Hct & Heq & _)]; [exact Hstored |].
    rewrite Hstored in Heq. inversion Heq; subst.
    destruct (Hother p ct Hin Hct eq_refl).
  - exact Honly.
  - intros c. apply removeComponent_grounded.
  - intros call cid Hstored Hgone. destruct call as [ps | ps | c]; cbn [adapterCall endsContact] in *.
    + destruct (collisionActive_keeps_grounded ps s e) as [x Hx];
        [rewrite Hstored; eauto |].
      rewrite Hx in Hgone. discriminate Hgone.
    + left. destruct (Honly ps cid Hstored Hgone)
        as (p & ct & c & Hp & Hct & Hid & _).
      exists p, ct. auto.
    + right. exists c. split; [reflexivity |].
      rewrite removeComponent_grounded in Hgone.
      destruct (N.eqb_spec (entityId c) e) as [He | _]; [exact He |].
      rewrite Hstored in Hgone. discriminate Hgone.
Qed.

Lemma grounded_record_lifecycle_witness :
  grounded (activeContactStep (Some Sample.player) (Some Sample.rock)
              Sample.world Sample.feet) !! 1%N = Some "8_0"%string /\
  grounded (collisionActive Sample.world [Sample.onFence; Sample.onRock])
    !! 1%N = Some "8_0"%string /\
  grounded (collisionEnd Sample.standing [Sample.onFence]) !! 1%N
  = Some "8_0"%string /\
  grounded (endContactStep (Some Sample.player) (Some Sample.rock)
              Sample.standing Sample.feet) !! 1%N = None /\
  grounded (collisionEnd Sample.standing [Sample.onFence; Sample.onRock])
    !! 1%N = None.
Proof.
  pose proof (grounded_record_lifecycle Sample.world 1%N)
    as (Hset & Hbatch & _).
  pose proof (grounded_record_lifecycle Sample.standing 1%N)
    as (_ & _ & _ & _ & Hclear & Hends & Hother & _).
  split; [| split; [| split; [| split]]].
  - apply (Hset (Some Sample.player) (Some Sample.rock) Sample.player
             Sample.feet); auto.
  - rewrite Hbatch. reflexivity.
  - apply Hother; [reflexivity |].
    intros p ct [<- | []] [<- | []]. discriminate.
  - apply (Hclear (Some Sample.player) (Some Sample.rock) Sample.player
             Sample.feet); auto.
  - apply (Hends [Sample.onFence; Sample.onRock] Sample.onRock Sample.feet
             Sample.player).
    + right. left. reflexivity.
    + left. reflexivity.
    + left. reflexivity.
    + reflexivity.
    + reflexivity.
Defined.

(** C4, as stated, fails: the record of the player, who stands on the
    rock, is cleared by [removeComponent], a call that reports the end of
    no contact. *)
Lemma grounded_record_cleared_by_removal :
  ~ (forall (call : AdapterCall) (e : EntityId) (cid : string),
       grounded Sample.standing !! e = Some cid ->
       grounded (adapterCall Sample.standing call) !! e = None ->
       endsContact cid call).
Proof.
  intros H.
  exact (H (RemoveComponent Sample.player) 1%N "8_0"%string eq_refl eq_refl).
Qed.

(** * Further properties *)

(** ** Components coming and going *)

Section ComponentTable.

Variable BLOCK_SZ_WLD : Q.
Variable directionToVector : Direction -> Vec2.
Variable attemptModeTransitionFn :
  EntityId -> Q -> Q -> Direction -> FreeModeImpl -> bool * FreeModeImpl.
Variable setStaticPos : Body -> Q -> Q -> Body.

Local Abbreviation moveAgent :=
  (moveAgent BLOCK_SZ_WLD directionToVector attemptModeTransitionFn).
Local Abbreviation addComponent := (addComponent setStaticPos).

Lemma moveAgent_missing (s : FreeModeImpl) (id : EntityId) (d : Direction) :
  componentsByEntityId s !! id = None ->
  moveAgent s id d
  = Throw (mkGameError ("No spatial component for entity " +:+ numberToString id)).
Proof.
  intros H. unfold_move. unfold getComponent. rewrite H. reflexivity.
Qed.

(** X1: once a component is removed, [getComponent] and [moveAgent] throw
    for its entity and the entity is not grounded; the components and the
    grounded records of the other entities, the collision table, the
    bodies and the event log are as before. *)
Theorem removeComponent_forgets_entity (s : FreeModeImpl)
    (c : FreeModeSubcomponent) :
  let s' := removeComponent s c in
  let gone :=
    mkGameError ("No spatial component for entity "
                 +:+ numberToString (entityId c)) in
  getComponent s' (entityId c) = Throw gone /\
  (forall d, moveAgent s' (entityId c) d = Throw gone) /\
  bodyGrounded s' (entityId c) = false /\
  componentsByBodyId s' !! body c = None /\
  (forall id, id <> entityId c ->
     getComponent s' id = getComponent s id /\
     grounded s' !! id = grounded s !! id) /\
  collisions s' = collisions s /\ bodies s' = bodies s /\ posted s' = posted s.
Proof.
  intros s' gone.
  assert (Hgone : componentsByEntityId s' !! entityId c = None)
    by apply lookup_delete_eq.
  repeat split.
  - unfold getComponent. rewrite Hgone. reflexivity.
  - intros d. apply moveAgent_missing, Hgone.
  - unfold bodyGrounded. apply bool_decide_eq_false_2.
    subst s'. simpl. rewrite lookup_delete_eq. intros [x Hx]. discriminate Hx.
  - apply lookup_delete_eq.
  - unfold getComponent. subst s'. simpl.
    rewrite lookup_delete_ne by congruence. reflexivity.
  - subst s'. simpl. apply lookup_delete_ne. congruence.
Qed.

(** X2: [addComponent] returns [true]; afterwards [getComponent] returns
    the component for its entity, the body-id table maps its body to it and
    its body is the last body of the world; the other entities' components
    and every grounded record are as before.  Removing a component that was
    added to an adapter that knew neither its entity nor its body gives the
    two tables and the grounded map back. *)
Theorem addComponent_then_lookup (s : FreeModeImpl) (c : FreeModeSubcomponent)
    (x y : Q) :
  let s' := snd (addComponent s c x y) in
  fst (addComponent s c x y) = true /\
  getComponent s' (entityId c) = Return c /\
  componentsByBodyId s' !! body c = Some c /\
  last (worldBodies s') = Some (body c) /\
  (forall id, id <> entityId c -> getComponent s' id = getComponent s id) /\
  grounded s' = grounded s /\
  (componentsByEntityId s !! entityId c = None ->
   componentsByBodyId s !! body c = None ->
   grounded s !! entityId c = None ->
   componentsByEntityId (removeComponent s' c) = componentsByEntityId s /\
   componentsByBodyId (removeComponent s' c) = componentsByBodyId s /\
   grounded (removeComponent s' c) = grounded s).
Proof.
  intros s'. subst s'. simpl. repeat split.
  - unfold getComponent. simpl. rewrite lookup_insert_eq. reflexivity.
  - apply lookup_insert_eq.
  - apply last_snoc.
  - intros id Hne. unfold getComponent. simpl.
    rewrite lookup_insert_ne by congruence. reflexivity.
  - rewrite delete_insert_eq. apply delete_id. assumption.
  - rewrite delete_insert_eq. apply delete_id. assumption.
  - apply delete_id. assumption.
Qed.

(** X3: the grounded record does not survive a removal: when a component
    that was removed is added again, an UP call whose probed cell is inside
    the gravity region is turned down and changes nothing, whatever
    contacts had grounded the entity before. *)
Theorem readded_component_not_grounded (s : FreeModeImpl)
    (c : FreeModeSubcomponent) (x y : Q) :
  let s' := snd (addComponent (removeComponent s c) c x y) in
  Span2d_contains (gravRegion s')
    (probeCellX BLOCK_SZ_WLD directionToVector s' c UP)
    (probeCellY BLOCK_SZ_WLD directionToVector s' c UP) = true ->
  moveAgent s' (entityId c) UP = Return (false, s').
Proof.
  intros s' Hin.
  assert (Hc : getComponent s' (entityId c) = Return c).
  { unfold getComponent. subst s'. simpl. rewrite lookup_insert_eq. reflexivity. }
  destruct (probeGrid_cell BLOCK_SZ_WLD directionToVector s' c UP) as [Hx Hy].
  rewrite <- Hx, <- Hy in Hin.
  rewrite (moveAgent_stayed BLOCK_SZ_WLD directionToVector
             attemptModeTransitionFn s' s' (entityId c) c UP Hc
             (tryLeaveGravRegion_inside BLOCK_SZ_WLD directionToVector
                attemptModeTransitionFn s' c UP Hin)).
  cbn [Direction_eqb andb]. unfold bodyGrounded.
  rewrite bool_decide_eq_false_2; [reflexivity |].
  subst s'. simpl. rewrite lookup_delete_eq. intros [g Hg]. discriminate Hg.
Qed.

End ComponentTable.

(** ** More on the collision handlers *)

(** X4: whatever the engine reports, the handlers leave the gravity region,
    both component tables, every body and the list of the world's bodies
    as they are. *)
Theorem handlers_touch_no_body_or_table (evs : list EngineEvent)
    (s : FreeModeImpl) :
  gravRegion (run s evs) = gravRegion s /\
  componentsByEntityId (run s evs) = componentsByEntityId s /\
  componentsByBodyId (run s evs) = componentsByBodyId s /\
  bodies (run s evs) = bodies s /\
  worldBodies (run s evs) = worldBodies s.
Proof.
  change (untouched s (run s evs)).
  revert s. induction evs as [|ev evs IH]; intros s; [apply untouched_refl |].
  unfold run in *. simpl.
  eapply untouched_trans; [| apply IH].
  destruct ev; [apply collisionActive_untouched | apply collisionEnd_untouched].
Qed.

Lemma registerPair_untracked (s : FreeModeImpl) (p : Pair) :
  componentsByBodyId s !! bodyA p = None \/
  componentsByBodyId s !! bodyB p = None ->
  posted (registerPair s p) = posted s.
Proof.
  intros H. unfold registerPair.
  destruct (collisions s !! pair_id p); [reflexivity |].
  destruct (componentsByBodyId s !! bodyA p),
    (componentsByBodyId s !! bodyB p); try reflexivity.
  destruct H as [H | H]; discriminate H.
Qed.

Lemma collisionActive_keeps_pairs (ps : list Pair) (s : FreeModeImpl)
    (pid : PairId) :
  is_Some (collisions s !! pid) ->
  is_Some (collisions (collisionActive s ps) !! pid).
Proof.
  revert s. induction ps as [|q ps IH]; intros s H; [exact H |].
  unfold collisionActive in *. simpl. apply IH.
  rewrite collisionActivePair_collisions.
  destruct (collisions s !! pair_id q); [exact H |].
  apply lookup_insert_is_Some'. right. exact H.
Qed.

(** X5: a "collisionActive" batch in which every pair has a body that no
    component owns (a fence) posts no event, and enters every one of its
    pairs in the collision table. *)
Theorem fence_collisions_post_nothing (ps : list Pair) (s : FreeModeImpl) :
  (forall p, In p ps ->
     componentsByBodyId s !! bodyA p = None \/
     componentsByBodyId s !! bodyB p = None) ->
  posted (collisionActive s ps) = posted s /\
  (forall p, In p ps ->
     is_Some (collisions (collisionActive s ps) !! pair_id p)).
Proof.
  revert s. induction ps as [|q ps IH]; intros s H.
  - split; [reflexivity | intros p []].
  - unfold collisionActive in *. simpl.
    destruct (collisionActivePair_untouched s q) as (_ & _ & Hcbb & _).
    destruct (IH (collisionActivePair s q)) as [Hposted Hpairs].
    { intros p Hp. rewrite Hcbb. apply H. right. exact Hp. }
    split.
    + rewrite Hposted.
      change (posted (core (collisionActivePair s q)) = posted s).
      rewrite collisionActivePair_core.
      apply (registerPair_untracked s q), H. left. reflexivity.
    + intros p [<- | Hp]; [| apply Hpairs, Hp].
      apply (collisionActive_keeps_pairs ps).
      rewrite collisionActivePair_collisions.
      destruct (collisions s !! pair_id q) eqn:E; [rewrite E; eauto |].
      rewrite lookup_insert_eq. eauto.
Qed.

Lemma activeContacts_bodies a b (cts : list Contact) (s : FreeModeImpl) :
  bodies (fold_left (activeContactStep a b) cts s) = bodies s.
Proof.
  destruct (activeContacts_grounded_only a b cts s) as [g ->]. reflexivity.
Qed.

Lemma activeContacts_keep a b (cts : list Contact) (s : FreeModeImpl)
    (e : EntityId) :
  is_Some (grounded s !! e) ->
  is_Some (grounded (fold_left (activeContactStep a b) cts s) !! e).
Proof.
  revert s. induction cts as [|ct cts IH]; intros s H; [exact H |].
  simpl. apply IH, activeContactStep_keeps, H.
Qed.

Lemma activeContactStep_grounds a b (c : FreeModeSubcomponent) (ct : Contact)
    (s : FreeModeImpl) :
  a = Some c \/ b = Some c ->
  isGroundContact (bodies s !!! body c) ct = true ->
  is_Some (grounded (activeContactStep a b s ct) !! entityId c).
Proof.
  intros Hc Hg. unfold activeContactStep. destruct Hc as [-> | ->].
  - destruct (groundContactFor_grounded b ct (groundContactFor (Some c) ct s)
                (entityId c)) as [-> | ->]; [| eauto].
    rewrite groundContactFor_sets by exact Hg. eauto.
  - rewrite groundContactFor_sets; [eauto |].
    rewrite groundContactFor_bodies. exact Hg.
Qed.

Lemma activeContacts_ground a b (c : FreeModeSubcomponent) (cts : list Contact)
    (s : FreeModeImpl) :
  a = Some c \/ b = Some c ->
  (exists ct, In ct cts /\ isGroundContact (bodies s !!! body c) ct = true) ->
  is_Some (grounded (fold_left (activeContactStep a b) cts s) !! entityId c).
Proof.
  intros Hc. revert s. induction cts as [|ct0 cts IH]; intros s (ct & Hin & Hg).
  - destruct Hin.
  - simpl. destruct Hin as [-> | Hin].
    + apply activeContacts_keep, activeContactStep_grounds; assumption.
    + apply IH. exists ct. split; [exact Hin |].
      unfold activeContactStep. rewrite !groundContactFor_bodies. exact Hg.
Qed.

(** X6: when a reported pair has, among its active contacts, a ground
    contact of a body that a component owns, the "collisionActive" handler
    leaves that component's entity grounded, whether or not the other body
    of the pair belongs to a component. *)
Theorem ground_contact_grounds_entity (s : FreeModeImpl) (p : Pair)
    (c : FreeModeSubcomponent) (ct : Contact) :
  componentsByBodyId s !! bodyA p = Some c \/
  componentsByBodyId s !! bodyB p = Some c ->
  In ct (activeContacts p) ->
  isGroundContact (bodies s !!! body c) ct = true ->
  bodyGrounded (collisionActivePair s p) (entityId c) = true.
Proof.
  intros Hc Hin Hg. unfold bodyGrounded. apply bool_decide_eq_true_2.
  unfold collisionActivePair. apply activeContacts_ground; [exact Hc |].
  exists ct. split; [exact Hin |].
  destruct (registerPair_untouched s p) as (_ & _ & _ & -> & _). exact Hg.
Qed.

(** X7: a "collisionEnd" batch posts no event, grounds no entity that was
    not grounded, and adds no pair to the collision table. *)
Theorem collisionEnd_only_removes (ps : list Pair) (s : FreeModeImpl) :
  posted (collisionEnd s ps) = posted s /\
  (forall e, bodyGrounded s e = false ->
             bodyGrounded (collisionEnd s ps) e = false) /\
  (forall pid, collisions s !! pid = None ->
               collisions (collisionEnd s ps) !! pid = None).
Proof.
  split; [apply collisionEnd_posted |]. split.
  - intros e H. unfold bodyGrounded in *.
    apply bool_decide_eq_false in H. apply bool_decide_eq_false_2.
    rewrite collisionEnd_stays_clear; [intros [x Hx]; discriminate Hx |].
    destruct (grounded s !! e) eqn:E; [| reflexivity].
    destruct H. eauto.
  - intros pid H. apply collisionEnd_removes_pair. left. exact H.
Qed.

(** X8: the keys of the collision table follow the reports: a
    "collisionActive" batch adds the ids of its pairs, a "collisionEnd"
    batch takes the ids of its pairs away. *)
Theorem collision_table_follows_reports (ps : list Pair) (s : FreeModeImpl) :
  dom (collisions (collisionActive s ps))
  = dom (collisions s) ∪ list_to_set (map pair_id ps) /\
  dom (collisions (collisionEnd s ps))
  = dom (collisions s) ∖ list_to_set (map pair_id ps).
Proof.
  split.
  - revert s. induction ps as [|p ps IH]; intros s.
    + simpl. set_solver.
    + unfold collisionActive in *. simpl. rewrite IH.
      rewrite collisionActivePair_collisions.
      destruct (collisions s !! pair_id p) eqn:E.
      * assert (pair_id p ∈ dom (collisions s))
          by (apply elem_of_dom; eauto).
        set_solver.
      * rewrite dom_insert_L. set_solver.
  - revert s. induction ps as [|p ps IH]; intros s.
    + simpl. set_solver.
    + unfold collisionEnd in *. simpl. rewrite IH.
      rewrite collisionEndPair_collisions, dom_delete_L. set_solver.
Qed.

(** ** More on moveAgent *)

Section MovementEffects.

Variable BLOCK_SZ_WLD : Q.
Variable directionToVector : Direction -> Vec2.
Variable attemptModeTransitionFn :
  EntityId -> Q -> Q -> Direction -> FreeModeImpl -> bool * FreeModeImpl.

Local Abbreviation tryLeaveGravRegion :=
  (tryLeaveGravRegion BLOCK_SZ_WLD directionToVector attemptModeTransitionFn).
Local Abbreviation moveAgent :=
  (moveAgent BLOCK_SZ_WLD directionToVector attemptModeTransitionFn).

(** X9: a call of [moveAgent] that finds the component posts the entity's
    move event once, after whatever the transition check did, in all cases
    but two: an UP call turned down for want of ground and a DOWN call
    without transition post nothing. *)
Theorem moveAgent_move_event (s s1 : FreeModeImpl) (id : EntityId)
    (c : FreeModeSubcomponent) (d : Direction) (fired : bool) :
  getComponent s id = Return c ->
  tryLeaveGravRegion s c d = (fired, s1) ->
  exists (ok : bool) (s' : FreeModeImpl),
    moveAgent s id d = Return (ok, s') /\
    posted s'
    = posted s1 ++
      (if fired then [ENTITY_MOVED (entityId c) d]
       else match d with
            | UP => if bodyGrounded s1 (entityId c)
                    then [ENTITY_MOVED (entityId c) d] else []
            | DOWN => []
            | LEFT | RIGHT => [ENTITY_MOVED (entityId c) d]
            end) /\
    ok = (fired ||
          match d with
          | UP => bodyGrounded s1 (entityId c)
          | _ => true
          end).
Proof.
  intros Hc Htry. destruct fired.
  - rewrite (moveAgent_fired _ _ _ s s1 id c d Hc Htry).
    eexists _, _. split; [reflexivity |]. split; reflexivity.
  - rewrite (moveAgent_stayed _ _ _ s s1 id c d Hc Htry).
    destruct d; cbn [Direction_eqb andb orb].
    + destruct (bodyGrounded s1 (entityId c)); cbn [negb];
        eexists _, _; (split; [reflexivity |]); split; try reflexivity.
      simpl. rewrite app_nil_r. reflexivity.
    + eexists _, _. split; [reflexivity |]. split; reflexivity.
    + eexists _, _. split; [reflexivity |]. split; [| reflexivity].
      rewrite app_nil_r. reflexivity.
    + eexists _, _. split; [reflexivity |]. split; reflexivity.
Qed.

(** X10: beyond what the transition check did, a call of [moveAgent]
    changes nothing but the velocity of the component's body and the event
    log: the tables, the grounded map, the collision table, the list of
    the world's bodies, every other body, and the position and bounds of
    the component's own body stay. *)
Theorem moveAgent_writes_velocity_only (s s1 : FreeModeImpl) (id : EntityId)
    (c : FreeModeSubcomponent) (d : Direction) (fired : bool) :
  getComponent s id = Return c ->
  tryLeaveGravRegion s c d = (fired, s1) ->
  exists (ok : bool) (s' : FreeModeImpl),
    moveAgent s id d = Return (ok, s') /\
    gravRegion s' = gravRegion s1 /\
    componentsByEntityId s' = componentsByEntityId s1 /\
    componentsByBodyId s' = componentsByBodyId s1 /\
    grounded s' = grounded s1 /\
    collisions s' = collisions s1 /\
    worldBodies s' = worldBodies s1 /\
    (forall b, b <> body c -> bodies s' !! b = bodies s1 !! b) /\
    position (bodies s' !!! body c) = position (bodies s1 !!! body c) /\
    bounds (bodies s' !!! body c) = bounds (bodies s1 !!! body c).
Proof.
  intros Hc Htry. destruct fired.
  - rewrite (moveAgent_fired _ _ _ s s1 id c d Hc Htry).
    eexists _, _. split; [reflexivity |]. repeat split.
  - rewrite (moveAgent_stayed _ _ _ s s1 id c d Hc Htry).
    destruct (Direction_eqb d UP && negb (bodyGrounded s1 (entityId c)));
      [eexists _, _; split; [reflexivity |]; repeat split |].
    destruct (Direction_eqb d DOWN);
      [eexists _, _; split; [reflexivity |]; repeat split |].
    eexists _, _. split; [reflexivity |]. simpl. repeat split.
    + intros b Hb. apply lookup_insert_ne. congruence.
    + rewrite lookup_total_insert_eq. reflexivity.
    + rewrite lookup_total_insert_eq. reflexivity.
Qed.

End MovementEffects.

(** ** More on the region query and the hot spot *)

Lemma meetsSquare_grows (b : Bounds) (x y r r' : Q) :
  (r <= r')%Q -> meetsSquare b x y r -> meetsSquare b x y r'.
Proof.
  unfold meetsSquare. intros Hr (H1 & H2 & H3 & H4). repeat split; lra.
Qed.

Lemma entitiesWithinRadius_elem (s : FreeModeImpl) (x y r : Q) (e : EntityId) :
  e ∈ entitiesWithinRadius s x y r <->
  exists b c,
    In b (worldBodies s) /\
    componentsByBodyId s !! b = Some c /\ entityId c = e /\
    meetsSquare (bounds (bodies s !!! b)) x y r.
Proof.
  unfold entitiesWithinRadius, Query_region.
  rewrite collect_entities. split.
  - intros [H | (b & c & Hin & Hb & He)].
    + apply not_elem_of_empty in H. destruct H.
    + apply filter_In in Hin as [Hin Hov].
      apply Bounds_overlaps_square in Hov. exists b, c. auto.
  - intros (b & c & Hin & Hb & He & Hsq). right. exists b, c.
    split; [| auto]. apply filter_In. split; [exact Hin |].
    apply Bounds_overlaps_square. exact Hsq.
Qed.

(** X11: a larger radius finds at least the entities a smaller one
    finds, around the same point. *)
Theorem entitiesWithinRadius_grows_with_radius (s : FreeModeImpl)
    (x y r r' : Q) :
  (r <= r')%Q ->
  entitiesWithinRadius s x y r ⊆ entitiesWithinRadius s x y r'.
Proof.
  intros Hr e He. apply entitiesWithinRadius_elem in He
    as (b & c & Hin & Hb & Hc & Hsq).
  apply entitiesWithinRadius_elem. exists b, c.
  repeat split; try assumption; eapply meetsSquare_grows; eauto.
Qed.

(** X12: the ground test depends on where the contact lies relative to
    the body only: translating the body and moving the vertex of the
    contact by the same vector does not change its answer. *)
Theorem isGroundContact_translation (b : Body) (c : Contact) (v : Vec2) :
  isGroundContact
    (Body_translate b v)
    {| contact_id := contact_id c; vertex := Vector_add (vertex c) v |}
  = isGroundContact b c.
Proof.
  apply Bool.eq_true_iff_eq.
  unfold isGroundContact. cbv zeta. rewrite !isInside_spec.
  unfold Body_translate, Vector_add.
  cbn [bounds bounds_min bounds_max vec_x vec_y vertex].
  split; intros (H1 & H2 & H3 & H4); repeat split; lra.
Qed.

(** ** Fences *)

Lemma Qmin_plus_Qabs (a b : Q) : (Qmin a b + Qabs (b - a) == Qmax a b)%Q.
Proof.
  destruct (Qlt_le_dec a b) as [H | H].
  - rewrite Q.min_l, Q.max_r by lra. rewrite Qabs_pos by lra. ring.
  - rewrite Q.min_r, Q.max_l by lra. rewrite Qabs_neg by lra. ring.
Qed.

(** X13: the fence built for an edge of the perimeter is a rectangle half
    a block thick that spans the edge from end to end and has the line of
    the edge as one of its long sides: for a vertical edge, the right side
    when the edge runs from a larger y to a smaller y, the left side
    otherwise; for a horizontal edge, the bottom side when the edge runs
    from a smaller x to a larger x, the top side otherwise.  Its bounds
    are well formed. *)
Theorem fence_lies_along_edge (BLOCK_SZ_WLD : Q) (edge : Edge) :
  (0 < BLOCK_SZ_WLD)%Q ->
  let A := edge_A edge in
  let B := edge_B edge in
  let lo := bounds_min (bounds (fenceBody BLOCK_SZ_WLD edge)) in
  let hi := bounds_max (bounds (fenceBody BLOCK_SZ_WLD edge)) in
  (vec_x lo <= vec_x hi /\ vec_y lo <= vec_y hi)%Q /\
  match orientation edge with
  | VERTICAL =>
      (vec_y lo == Qmin (vec_y A) (vec_y B) * BLOCK_SZ_WLD /\
       vec_y hi == Qmax (vec_y A) (vec_y B) * BLOCK_SZ_WLD /\
       vec_x hi - vec_x lo == BLOCK_SZ_WLD / 2 /\
       if Qlt_bool (vec_y B) (vec_y A)
       then vec_x hi == vec_x A * BLOCK_SZ_WLD
       else vec_x lo == vec_x A * BLOCK_SZ_WLD)%Q
  | HORIZONTAL =>
      (vec_x lo == Qmin (vec_x A) (vec_x B) * BLOCK_SZ_WLD /\
       vec_x hi == Qmax (vec_x A) (vec_x B) * BLOCK_SZ_WLD /\
       vec_y hi - vec_y lo == BLOCK_SZ_WLD / 2 /\
       if Qlt_bool (vec_x A) (vec_x B)
       then vec_y hi == Qmin (vec_y A) (vec_y B) * BLOCK_SZ_WLD
       else vec_y lo == Qmin (vec_y A) (vec_y B) * BLOCK_SZ_WLD)%Q
  end.
Proof.
  intros Hpos A B lo hi.
  assert (Hmatch :
    match orientation edge with
    | VERTICAL =>
        (vec_y lo == Qmin (vec_y A) (vec_y B) * BLOCK_SZ_WLD /\
         vec_y hi == Qmax (vec_y A) (vec_y B) * BLOCK_SZ_WLD /\
         vec_x hi - vec_x lo == BLOCK_SZ_WLD / 2 /\
         if Qlt_bool (vec_y B) (vec_y A)
         then vec_x hi == vec_x A * BLOCK_SZ_WLD
         else vec_x lo == vec_x A * BLOCK_SZ_WLD)%Q
    | HORIZONTAL =>
        (vec_x lo == Qmin (vec_x A) (vec_x B) * BLOCK_SZ_WLD /\
         vec_x hi == Qmax (vec_x A) (vec_x B) * BLOCK_SZ_WLD /\
         vec_y hi - vec_y lo == BLOCK_SZ_WLD / 2 /\
         if Qlt_bool (vec_x A) (vec_x B)
         then vec_y hi == Qmin (vec_y A) (vec_y B) * BLOCK_SZ_WLD
         else vec_y lo == Qmin (vec_y A) (vec_y B) * BLOCK_SZ_WLD)%Q
    end).
  { subst lo hi. unfold fenceBody. fold A B. cbv zeta.
    unfold orientation. fold A B.
    destruct (Qeq_bool (vec_x A) (vec_x B)) eqn:Hor.
    - apply Qeq_bool_iff in Hor.
      assert (Hx : (Qmin (vec_x A) (vec_x B) == vec_x A)%Q)
        by (rewrite <- Hor; apply Q.min_id).
      pose proof (Qmin_plus_Qabs (vec_y A) (vec_y B)) as Hy.
      unfold Body_translate, Bodies_rectangle, Vector_add, Vector_sub.
      cbn [bounds bounds_min bounds_max position vec_x vec_y].
      destruct (Qlt_bool (vec_y B) (vec_y A)); repeat split;
        try (rewrite <- Hy); try (rewrite Hx); field.
    - pose proof (Qmin_plus_Qabs (vec_x A) (vec_x B)) as Hx.
      unfold Body_translate, Bodies_rectangle, Vector_add, Vector_sub.
      cbn [bounds bounds_min bounds_max position vec_x vec_y].
      destruct (Qlt_bool (vec_x A) (vec_x B)); repeat split;
        try (rewrite <- Hx); field. }
  split; [| exact Hmatch].
  clearbody lo hi.
  assert (Hmm : forall a b : Q,
            (Qmin a b * BLOCK_SZ_WLD <= Qmax a b * BLOCK_SZ_WLD)%Q).
  { intros a b. apply Qmult_le_compat_r; [| lra].
    apply (Qle_trans _ a); [apply Q.le_min_l | apply Q.le_max_l]. }
  assert (Hhalf : (BLOCK_SZ_WLD / 2 == BLOCK_SZ_WLD * (1 # 2))%Q) by field.
  destruct (orientation edge).
  - destruct Hmatch as (H1 & H2 & H3 & _). rewrite Hhalf in H3.
    pose proof (Hmm (vec_y A) (vec_y B)). split; lra.
  - destruct Hmatch as (H1 & H2 & H3 & _). rewrite Hhalf in H3.
    pose proof (Hmm (vec_x A) (vec_x B)). split; lra.
Qed.

(** ** The position setters of CSpatial *)

Ltac unfold_positionCalls := unfold positionCalls in *.

Section SpatialSetterProperties.

Variable grid_setInstantaneousPos grid_setStaticPos :
  Spatial.GridModeSubcomponent -> Q -> Q -> Spatial.GridModeSubcomponent.
Variable free_setInstantaneousPos free_setStaticPos :
  Spatial.FreeModeSubcomponent -> Q -> Q -> Spatial.FreeModeSubcomponent.

Local Abbreviation positionCall :=
  (positionCall grid_setInstantaneousPos grid_setStaticPos
                free_setInstantaneousPos free_setStaticPos).
Local Abbreviation positionCalls :=
  (positionCalls grid_setInstantaneousPos grid_setStaticPos
                 free_setInstantaneousPos free_setStaticPos).

Lemma positionCall_step (c : CSpatial.t) (call : PositionCall) :
  CSpatial.currentMode (positionCall c call) = CSpatial.currentMode c /\
  CSpatial.teleport (positionCall c call)
  = CSpatial.teleport c || asksTeleport call /\
  match CSpatial.currentMode c with
  | Spatial.GRID_MODE =>
      CSpatial.freeMode (positionCall c call) = CSpatial.freeMode c
  | Spatial.FREE_MODE =>
      CSpatial.gridMode (positionCall c call) = CSpatial.gridMode c
  end.
Proof.
  destruct c as [m g f t]. destruct call, m; repeat split.
Qed.

(** X14: however many times the position of a spatial component is set,
    its mode stays, the subcomponent that is not current is not touched,
    and its teleport flag is set from the first call that asks for it on:
    it ends up set exactly when it was set before or some call asked. *)
Theorem position_setters_keep_mode (calls : list PositionCall) (c : CSpatial.t) :
  let c' := positionCalls c calls in
  CSpatial.currentMode c' = CSpatial.currentMode c /\
  CSpatial.teleport c' = CSpatial.teleport c || existsb asksTeleport calls /\
  match CSpatial.currentMode c with
  | Spatial.GRID_MODE => CSpatial.freeMode c' = CSpatial.freeMode c
  | Spatial.FREE_MODE => CSpatial.gridMode c' = CSpatial.gridMode c
  end.
Proof.
  revert c. induction calls as [|call calls IH]; intros c; simpl.
  - rewrite orb_false_r. destruct (CSpatial.currentMode c); auto.
  - destruct (positionCall_step c call) as (Hm & Ht & Ho).
    destruct (IH (positionCall c call)) as (Hm' & Ht' & Ho').
    cbv zeta in *. unfold_positionCalls. simpl.
    rewrite Hm', Ht', Hm, Ht, orb_assoc. repeat split.
    rewrite Hm in Ho'.
    destruct (CSpatial.currentMode c); congruence.
Qed.

End SpatialSetterProperties.

(** ** Colour *)

Lemma Qlt_bool_iff (a b : Q) : Qlt_bool a b = true <-> (a < b)%Q.
Proof.
  unfold Qlt_bool. rewrite negb_true_iff. split.
  - intros H. apply Qnot_le_lt. intros Hle.
    apply Qle_bool_iff in Hle. congruence.
  - intros H. apply not_true_is_false. intros Hle.
    apply Qle_bool_iff in Hle. lra.
Qed.

Lemma Qlt_bool_false (a b : Q) : Qlt_bool a b = false <-> (b <= a)%Q.
Proof.
  unfold Qlt_bool. rewrite negb_false_iff. apply Qle_bool_iff.
Qed.

Lemma clamp_in_range (v lo hi : Q) :
  (lo <= hi)%Q -> (lo <= Colour.clamp v lo hi <= hi)%Q.
Proof.
  intros H. unfold Colour.clamp.
  destruct (Qlt_bool v lo) eqn:E1; [lra |].
  destruct (Qlt_bool hi v) eqn:E2; [lra |].
  apply Qlt_bool_false in E1, E2. lra.
Qed.

Lemma Colour_new_unit (r g b a : Q) : unitChannels (Colour.new r g b a).
Proof.
  unfold unitChannels, Colour.new. simpl.
  repeat split; apply clamp_in_range; lra.
Qed.

Lemma Colour_call_unit (c : Colour.t) (k : Colour.Call) :
  unitChannels c -> unitChannels (Colour.call c k).
Proof.
  unfold unitChannels. intros (Hr & Hg & Hb & Ha).
  destruct k; simpl; repeat split; try apply clamp_in_range; lra.
Qed.

Lemma Math_round_byte (q : Q) :
  (0 <= q <= 1)%Q -> 0 <= Colour.Math_round (q * 255) <= 255.
Proof.
  intros [H0 H1]. unfold Colour.Math_round. split.
  - apply (Z.le_trans _ (Qfloor 0)); [reflexivity |].
    apply Qfloor_resp_le. lra.
  - apply (Z.le_trans _ (Qfloor (255 + (1 # 2)))); [| reflexivity].
    apply Qfloor_resp_le. lra.
Qed.

(** X15: a colour made by the constructor and changed through its setters
    has all four channels between 0 and 1; its [value] is then a 24-bit
    number from which the three rounded colour channels can be read back:
    red in the top byte, green in the middle byte, blue in the low byte. *)
Theorem Colour_value_packs_channels (r g b a : Q) (ks : list Colour.Call) :
  let c := fold_left Colour.call ks (Colour.new r g b a) in
  (0 <= Colour.r c <= 1 /\ 0 <= Colour.g c <= 1 /\
   0 <= Colour.b c <= 1 /\ 0 <= Colour.a c <= 1)%Q /\
  0 <= Colour.value c <= 16777215 /\
  Colour.value c / 65536 = Colour.Math_round (Colour.r c * 255) /\
  (Colour.value c / 256) mod 256 = Colour.Math_round (Colour.g c * 255) /\
  Colour.value c mod 256 = Colour.Math_round (Colour.b c * 255).
Proof.
  intros c.
  assert (Hunit : unitChannels c).
  { subst c. generalize (Colour_new_unit r g b a).
    generalize (Colour.new r g b a).
    induction ks as [|k ks IH]; intros c0 H0; [exact H0 |].
    simpl. apply IH, Colour_call_unit, H0. }
  split; [exact Hunit |].
  destruct Hunit as (Hr & Hg & Hb & _).
  apply Math_round_byte in Hr, Hg, Hb.
  unfold Colour.value.
  generalize dependent (Colour.Math_round (Colour.r c * 255)).
  generalize dependent (Colour.Math_round (Colour.g c * 255)).
  generalize dependent (Colour.Math_round (Colour.b c * 255)).
  intros zb Hb zg Hg zr Hr.
  assert (E : (zr * 16 * 16 * 16 * 16 + zg * 16 * 16 + zb) / 256
              = zr * 256 + zg)
    by (symmetry; apply (Z.div_unique _ 256 _ zb); [lia | ring]).
  split; [lia |]. split; [| split].
  - clear E. symmetry.
    apply (Z.div_unique _ 65536 zr (zg * 256 + zb)); [lia | ring].
  - rewrite E. clear E. symmetry. apply (Z.mod_unique _ 256 zr zg); [lia | ring].
  - clear E. symmetry.
    apply (Z.mod_unique _ 256 (zr * 256 + zg) zb); [lia | ring].
Qed.

(** ** The view *)

Lemma Qabs_self_small (x : Q) : (Qabs (x - x) < 0.1)%Q.
Proof.
  assert (E : (x - x == 0)%Q) by ring.
  rewrite E. reflexivity.
Qed.

Section ViewProperties.

Variable BLOCK_SZ_PX : Q.
Variable toPixels : Q -> Q.

Local Abbreviation onWindowResized :=
  (RenderView.onWindowResized BLOCK_SZ_PX toPixels).
Local Abbreviation setCameraPosition :=
  (RenderView.setCameraPosition toPixels).

(** X16: for a window of positive height, [onWindowResized] scales the
    stage by a whole number, at least 1; the view times that number is the
    window, in height and in width; the view is not higher than the target
    vertical resolution of ten blocks; the camera stays, the view is
    centred on it, and the stage is offset by the view's origin times the
    same whole number. *)
Theorem onWindowResized_integer_scale (v : RenderView.t) (w h : Q) :
  (0 < BLOCK_SZ_PX)%Q -> (0 < h)%Q ->
  let v' := onWindowResized v w h in
  exists n : Z,
    1 <= n /\
    RenderView.stage_scale v' = inject_Z n /\
    (RenderView.viewH_px v' * inject_Z n == h)%Q /\
    (RenderView.viewW_px v' * inject_Z n == w)%Q /\
    (RenderView.viewH_px v' <= 10 * BLOCK_SZ_PX)%Q /\
    RenderView.windowW v' = w /\ RenderView.windowH v' = h /\
    RenderView.camera v' = RenderView.camera v /\
    (RenderView.viewX_px v' + 0.5 * RenderView.viewW_px v'
     == toPixels (vec_x (RenderView.camera v)))%Q /\
    (RenderView.viewY_px v' + 0.5 * RenderView.viewH_px v'
     == toPixels (vec_y (RenderView.camera v)))%Q /\
    (RenderView.stage_x v' == - RenderView.viewX_px v' * inject_Z n)%Q /\
    (RenderView.stage_y v' == - RenderView.viewY_px v' * inject_Z n)%Q.
Proof.
  intros HB Hh v'.
  set (T := RenderView.TARGET_VERTICAL_RESOLUTION BLOCK_SZ_PX).
  assert (HT : (0 < T)%Q) by (subst T; unfold RenderView.TARGET_VERTICAL_RESOLUTION; lra).
  set (n := Qceiling (h / T)).
  assert (Hle : (h / T <= inject_Z n)%Q) by apply Qle_ceiling.
  assert (HhT : (0 < h / T)%Q) by (apply Qlt_shift_div_l; lra).
  assert (Hn0 : (0 < inject_Z n)%Q) by lra.
  assert (Hn1 : 1 <= n).
  { assert (0 < n); [| lia]. rewrite Zlt_Qlt. exact Hn0. }
  assert (Hnz : ~ (inject_Z n == 0)%Q) by lra.
  assert (Hhz : ~ (h == 0)%Q) by lra.
  exists n. subst v'.
  unfold RenderView.onWindowResized, RenderView.setCameraPosition_.
  fold T. fold n. cbn [RenderView.stage_scale RenderView.viewH_px
    RenderView.viewW_px RenderView.windowW RenderView.windowH
    RenderView.camera RenderView.viewX_px RenderView.viewY_px
    RenderView.stage_x RenderView.stage_y].
  split; [exact Hn1 |]. split; [reflexivity |].
  split; [field; exact Hnz |]. split; [field; split; assumption |].
  split.
  { apply Qle_shift_div_r; [exact Hn0 |].
    change (10 * BLOCK_SZ_PX)%Q with T.
    assert (HTz : ~ (T == 0)%Q) by lra.
    assert (Hh' : (h == h / T * T)%Q) by (field; exact HTz).
    rewrite Hh' at 1. rewrite (Qmult_comm T).
    apply Qmult_le_compat_r; lra. }
  split; [reflexivity |]. split; [reflexivity |].
  split; [destruct (RenderView.camera v); reflexivity |].
  split; [ring |]. split; [ring |].
  split; field; split; assumption.
Qed.

(** X17: after [setCameraPosition] the camera is less than a tenth of a
    unit away from the requested point on either axis: either it was that
    close already and the whole view is left as it was, or the camera is
    now at the requested point. *)
Theorem setCameraPosition_dead_zone (v : RenderView.t) (x y : Q) :
  let v' := setCameraPosition v x y in
  (Qabs (x - vec_x (RenderView.camera v')) < 0.1 /\
   Qabs (y - vec_y (RenderView.camera v')) < 0.1)%Q /\
  (v' = v \/ RenderView.camera v' = {| vec_x := x; vec_y := y |}).
Proof.
  intros v'. subst v'. unfold RenderView.setCameraPosition.
  destruct (Qlt_bool (Qabs (x - vec_x (RenderView.camera v))) 0.1) eqn:Ex;
    [destruct (Qlt_bool (Qabs (y - vec_y (RenderView.camera v))) 0.1) eqn:Ey |];
    cbn [andb].
  - apply Qlt_bool_iff in Ex, Ey. auto.
  - split; [| right; reflexivity]. simpl. split; apply Qabs_self_small.
  - split; [| right; reflexivity]. simpl. split; apply Qabs_self_small.
Qed.

End ViewProperties.

(** X18: for a viewport of non-negative extent, the two distances
    [getDistanceFromViewport] combines are never negative, and each is zero
    exactly when the point is within the viewport along that axis: the
    distance it returns is zero exactly for the points of the viewport. *)
Theorem viewportOffset_zero_inside (cameraX cameraY viewW viewH x y : Q) :
  (0 <= viewW)%Q -> (0 <= viewH)%Q ->
  let d := RenderView.viewportOffset cameraX cameraY viewW viewH x y in
  (0 <= fst d /\ 0 <= snd d)%Q /\
  ((fst d == 0)%Q <->
   (cameraX - viewW * 0.5 <= x <= cameraX + viewW * 0.5)%Q) /\
  ((snd d == 0)%Q <->
   (cameraY - viewH * 0.5 <= y <= cameraY + viewH * 0.5)%Q).
Proof.
  intros Hw Hh d. subst d. unfold RenderView.viewportOffset. cbv zeta.
  cbn [fst snd].
  destruct (Qlt_bool (cameraX + viewW * 0.5) x) eqn:X1;
    destruct (Qlt_bool x (cameraX - viewW * 0.5)) eqn:X0;
    destruct (Qlt_bool (cameraY + viewH * 0.5) y) eqn:Y1;
    destruct (Qlt_bool y (cameraY - viewH * 0.5)) eqn:Y0;
    repeat match goal with
      | H : Qlt_bool _ _ = true |- _ => apply Qlt_bool_iff in H
      | H : Qlt_bool _ _ = false |- _ => apply Qlt_bool_false in H
      end;
    repeat split; intros; lra.
Qed.

(** ** More on playAnimation *)

(** X19: [playAnimation] looks for the component before it looks for the
    animation: for an entity without render component, and for an entity
    whose render component is not a sprite, it throws the error of
    [getComponent] or of [getSpriteComponent], whatever the name asked
    for. *)
Theorem playAnimation_needs_sprite
    (updateComponentPosition : EntityId -> RenderSystem.CSprite -> option GameError)
    (sys : RenderSystem.t) (id : EntityId) (name : string) :
  (RenderSystem.components sys !! id = None ->
   RenderSystem.playAnimation updateComponentPosition sys id name
   = Throw (mkGameError ("No render component for entity "
                         +:+ numberToString id))) /\
  (forall c : RenderSystem.CRender,
     RenderSystem.components sys !! id = Some c ->
     (forall sprite, c <> RenderSystem.Sprite sprite) ->
     RenderSystem.playAnimation updateComponentPosition sys id name
     = Throw (mkGameError ("Render component (id=" +:+ numberToString id
                           +:+ ") is not of type SPRITE"))).
Proof.
  unfold RenderSystem.playAnimation, RenderSystem.getSpriteComponent,
    RenderSystem.getComponent.
  split.
  - intros ->. reflexivity.
  - intros c -> Hns. destruct c; try reflexivity.
    destruct (Hns c eq_refl).
Qed.

(** X20: when [playAnimation] returns for a sprite component, it returns
    [true], the component had the named animation, and the call changed
    the component of its own entity only; there the named animation is now
    the active animation and the current sprite, restarted from frame 0
    without looping, the other animations being left alone; the call
    scheduled nothing, and the pending end-frame callback of the animation
    that was active is cancelled. *)
Theorem playAnimation_restarts_animation
    (updateComponentPosition : EntityId -> RenderSystem.CSprite -> option GameError)
    (sys sys' : RenderSystem.t) (id : EntityId) (name : string)
    (c : RenderSystem.CSprite) (ok : bool) :
  RenderSystem.getSpriteComponent sys id = Return c ->
  RenderSystem.playAnimation updateComponentPosition sys id name
  = Return (ok, sys') ->
  ok = true /\
  exists (c' : RenderSystem.CSprite) (anim anim' : RenderSystem.Animation),
    RenderSystem.animatedSprites c !! name = Some anim /\
    RenderSystem.components sys' !! id = Some (RenderSystem.Sprite c') /\
    (forall id', id' <> id ->
       RenderSystem.components sys' !! id' = RenderSystem.components sys !! id') /\
    RenderSystem.activeAnimation c' = Some name /\
    RenderSystem.currentSprite c' = Some (RenderSystem.AnimatedSprite name) /\
    RenderSystem.staticSprites c' = RenderSystem.staticSprites c /\
    RenderSystem.animatedSprites c' !! name = Some anim' /\
    RenderSystem.loop anim' = false /\
    RenderSystem.playing anim' = true /\
    RenderSystem.currentFrame anim' = 0%N /\
    RenderSystem.endFrame anim' = RenderSystem.endFrame anim /\
    (forall other, other <> name ->
       RenderSystem.animatedSprites c' !! other
       = RenderSystem.animatedSprites c !! other) /\
    RenderSystem.scheduled sys' ⊆ RenderSystem.scheduled sys /\
    (forall prev a,
       RenderSystem.activeAnimation c = Some prev ->
       RenderSystem.animatedSprites c !! prev = Some a ->
       RenderSystem.setEndFrameFnHandle a ∉ RenderSystem.scheduled sys').
Proof.
  intros Hc. unfold RenderSystem.playAnimation. rewrite Hc.
  unfold RenderSystem.spriteCompSetActiveSprite_animated.
  destruct (RenderSystem.animatedSprites c !! name) as [anim|] eqn:Hanim;
    [| intros H; discriminate H].
  destruct (updateComponentPosition id _); intros H; inversion H; subst ok sys'.
  clear H. split; [reflexivity |].
  eexists _, anim, _. simpl.
  split; [reflexivity |].
  split; [apply lookup_insert_eq |].
  split; [intros id' Hne; apply lookup_insert_ne; congruence |].
  split; [reflexivity |]. split; [reflexivity |]. split; [reflexivity |].
  split; [apply lookup_insert_eq |].
  split; [reflexivity |]. split; [reflexivity |]. split; [reflexivity |].
  split; [reflexivity |].
  split; [intros other Hne; apply lookup_insert_ne; congruence |].
  split.
  - destruct (RenderSystem.activeAnimation c) as [active|]; [| set_solver].
    destruct (RenderSystem.animatedSprites c !! active); set_solver.
  - intros prev a -> ->. set_solver.
Qed.

(** ** More on the agent system *)

Lemma AgentSystem_getDirtiesStep_alter
    (ds : list EntityId) (m : gmap N AgentSystem.AgentComponent) (id : EntityId) :
  AgentSystem_getDirtiesStep (ds, m) id
  = (ds ++ (if AgentSystem_isDirty m id then [id] else []),
     alter AgentSystem_clean id m).
Proof.
  unfold AgentSystem_getDirtiesStep, AgentSystem_isDirty. simpl.
  destruct (m !! id) as [c|] eqn:E.
  - destruct (AgentSystem.dirty c) eqn:D.
    + f_equal. apply map_eq. intros k.
      destruct (decide (id = k)) as [<- | Hne].
      * rewrite lookup_insert_eq, lookup_alter_eq, E. reflexivity.
      * rewrite lookup_insert_ne, lookup_alter_ne by exact Hne. reflexivity.
    + rewrite app_nil_r. f_equal. apply map_eq. intros k.
      destruct (decide (id = k)) as [<- | Hne].
      * rewrite lookup_alter_eq, E. simpl. f_equal.
        destruct c. simpl in D. subst. reflexivity.
      * rewrite lookup_alter_ne by exact Hne. reflexivity.
  - rewrite app_nil_r. f_equal. apply map_eq. intros k.
    destruct (decide (id = k)) as [<- | Hne].
    + rewrite lookup_alter_eq, E. reflexivity.
    + rewrite lookup_alter_ne by exact Hne. reflexivity.
Qed.

(** The entries once the loop has gone through the keys. *)
Lemma cleaned_lookup (order : list EntityId)
    (m : gmap N AgentSystem.AgentComponent) (k : EntityId) :
  fold_left (fun m id => alter AgentSystem_clean id m) order m !! k
  = if decide (k ∈ order) then AgentSystem_clean <$> m !! k else m !! k.
Proof.
  revert m. induction order as [|k0 order IH]; intros m; simpl.
  - destruct (decide (k ∈ [])) as [H | _]; [| reflexivity].
    apply elem_of_nil in H. destruct H.
  - rewrite IH.
    destruct (decide (k0 = k)) as [<- | Hne].
    + rewrite lookup_alter_eq.
      destruct (decide (k0 ∈ k0 :: order)) as [_ | H];
        [| destruct H; apply list_elem_of_here].
      destruct (decide (k0 ∈ order)); destruct (m !! k0); reflexivity.
    + rewrite lookup_alter_ne by exact Hne.
      destruct (decide (k ∈ order)) as [H | H],
        (decide (k ∈ k0 :: order)) as [H' | H']; try reflexivity.
      * destruct H'. apply list_elem_of_further, H.
      * apply elem_of_cons in H' as [-> | H']; [congruence | contradiction].
Qed.

Lemma clean_never_dirty (m : gmap N AgentSystem.AgentComponent)
    (order : list EntityId) :
  List.filter (AgentSystem_isDirty (AgentSystem_clean <$> m)) order = [].
Proof.
  induction order as [|k order IH]; [reflexivity |].
  simpl. unfold AgentSystem_isDirty at 1. rewrite lookup_fmap.
  destruct (m !! k); exact IH.
Qed.

Lemma getDirties_fold (order : list EntityId) (ds : list EntityId)
    (m : gmap N AgentSystem.AgentComponent) :
  NoDup order ->
  fold_left AgentSystem_getDirtiesStep order (ds, m)
  = (ds ++ List.filter (AgentSystem_isDirty m) order,
     fold_left (fun m id => alter AgentSystem_clean id m) order m).
Proof.
  revert ds m. induction order as [|k order IH]; intros ds m Hnd; simpl.
  - rewrite app_nil_r. reflexivity.
  - apply NoDup_cons in Hnd as [Hk Hnd].
    rewrite AgentSystem_getDirtiesStep_alter, (IH _ _ Hnd).
    f_equal. rewrite <- app_assoc. f_equal.
    assert (E : List.filter (AgentSystem_isDirty (alter AgentSystem_clean k m)) order
                = List.filter (AgentSystem_isDirty m) order).
    { apply filter_ext_in. intros k' Hin. unfold AgentSystem_isDirty.
      rewrite lookup_alter_ne; [reflexivity |].
      intros ->. apply Hk. apply list_elem_of_In. exact Hin. }
    rewrite E. destruct (AgentSystem_isDirty m k); reflexivity.
Qed.

(** X21: a harvest of the dirty components, run over the keys of the table
    in their order, returns the entities whose component was dirty, in
    that order; it lowers the flag of every component and changes nothing
    else in the table; a second harvest right after it returns nothing. *)
Theorem getDirties_harvests_once (order : list EntityId) (sys : AgentSystem.t) :
  NoDup order ->
  (forall k, is_Some (AgentSystem.entries (AgentSystem.components sys) !! k) ->
             In k order) ->
  let harvest := AgentSystem_getDirties order sys in
  fst harvest
  = List.filter
      (AgentSystem_isDirty (AgentSystem.entries (AgentSystem.components sys)))
      order /\
  AgentSystem.entries (AgentSystem.components (snd harvest))
  = AgentSystem_clean <$> AgentSystem.entries (AgentSystem.components sys) /\
  AgentSystem.numComponents (snd harvest) = AgentSystem.numComponents sys /\
  fst (AgentSystem_getDirties order (snd harvest)) = [].
Proof.
  intros Hnd Hcover harvest.
  set (m := AgentSystem.entries (AgentSystem.components sys)) in *.
  assert (Hentries :
    fold_left (fun m id => alter AgentSystem_clean id m) order m
    = AgentSystem_clean <$> m).
  { apply map_eq. intros k. rewrite cleaned_lookup, lookup_fmap.
    destruct (decide (k ∈ order)) as [Hin | Hout]; [reflexivity |].
    destruct (m !! k) eqn:E; [| reflexivity].
    destruct Hout. apply list_elem_of_In, Hcover. rewrite E. eauto. }
  assert (Hharvest : harvest
    = (List.filter (AgentSystem_isDirty m) order,
       {| AgentSystem.components :=
            {| AgentSystem.entries := AgentSystem_clean <$> m;
               AgentSystem.ownProperties :=
                 AgentSystem.ownProperties (AgentSystem.components sys) |} |})).
  { subst harvest. unfold AgentSystem_getDirties. fold m.
    rewrite (getDirties_fold order [] m Hnd), Hentries. reflexivity. }
  rewrite Hharvest. cbn [fst snd].
  split; [reflexivity |]. split; [reflexivity |]. split.
  - unfold AgentSystem.numComponents. simpl. apply map_size_fmap.
  - unfold AgentSystem_getDirties. simpl.
    rewrite (getDirties_fold order [] _ Hnd). simpl.
    apply clean_never_dirty.
Qed.

(** X22: after [removeComponent], [getComponent] throws for the entity and
    returns what it returned before for every other entity; the count of
    components grows by one when a component is added for an entity that
    had none and stays when the entity had one (the new component takes its
    place), and drops by one when a stored component is removed. *)
Theorem AgentSystem_table_operations (sys : AgentSystem.t) (id : EntityId)
    (c : AgentSystem.AgentComponent) :
  AgentSystem.getComponent (AgentSystem.removeComponent sys id) id
  = Throw (mkGameError ("No agent component for entity "
                        +:+ numberToString id)) /\
  (forall id', id' <> id ->
     AgentSystem.getComponent (AgentSystem.removeComponent sys id) id'
     = AgentSystem.getComponent sys id') /\
  AgentSystem.getComponent (AgentSystem.addComponent sys c)
                           (AgentSystem.entityId c) = Return c /\
  AgentSystem.numComponents (AgentSystem.addComponent sys c)
  = match AgentSystem.Map_get (AgentSystem.entityId c)
                              (AgentSystem.components sys) with
    | Some _ => AgentSystem.numComponents sys
    | None => S (AgentSystem.numComponents sys)
    end /\
  AgentSystem.numComponents (AgentSystem.removeComponent sys id)
  = match AgentSystem.Map_get id (AgentSystem.components sys) with
    | Some _ => pred (AgentSystem.numComponents sys)
    | None => AgentSystem.numComponents sys
    end.
Proof.
  unfold AgentSystem.getComponent, AgentSystem.Map_get,
    AgentSystem.numComponents. simpl.
  split; [rewrite lookup_delete_eq; reflexivity |].
  split; [intros id' Hne; rewrite lookup_delete_ne by congruence; reflexivity |].
  split; [rewrite lookup_insert_eq; reflexivity |].
  split.
  - destruct (AgentSystem.entries (AgentSystem.components sys)
              !! AgentSystem.entityId c) eqn:E.
    + apply map_size_insert_Some. eauto.
    + apply map_size_insert_None. exact E.
  - destruct (AgentSystem.entries (AgentSystem.components sys) !! id) eqn:E.
    + apply map_size_delete_Some. eauto.
    + apply map_size_delete_None. exact E.
Qed.

(** ** Repeating a report, repeating a command *)

Lemma collisionActive_registers (ps : list Pair) (s : FreeModeImpl) (p : Pair) :
  In p ps -> is_Some (collisions (collisionActive s ps) !! pair_id p).
Proof.
  revert s. induction ps as [|q ps IH]; intros s Hin; [destruct Hin |].
  unfold collisionActive in *. simpl. destruct Hin as [-> | Hin].
  - apply (collisionActive_keeps_pairs ps).
    rewrite collisionActivePair_collisions.
    destruct (collisions s !! pair_id p) eqn:E; [rewrite E; eauto |].
    rewrite lookup_insert_eq. eauto.
  - apply IH, Hin.
Qed.

(** X23: a "collisionActive" report that comes a second time, with none
    of its pairs ended in between, posts nothing and leaves the collision
    table as the first one left it. *)
Theorem repeated_report_posts_nothing (ps : list Pair) (s : FreeModeImpl) :
  let s1 := collisionActive s ps in
  posted (collisionActive s1 ps) = posted s1 /\
  collisions (collisionActive s1 ps) = collisions s1.
Proof.
  intros s1. apply collisionActive_known_posts_nothing.
  intros p Hp. apply collisionActive_registers, Hp.
Qed.

Section RepeatedCommand.

Variable BLOCK_SZ_WLD : Q.
Variable directionToVector : Direction -> Vec2.
Variable attemptModeTransitionFn :
  EntityId -> Q -> Q -> Direction -> FreeModeImpl -> bool * FreeModeImpl.

Local Abbreviation probeGridX := (probeGridX BLOCK_SZ_WLD directionToVector).
Local Abbreviation probeGridY := (probeGridY BLOCK_SZ_WLD directionToVector).
Local Abbreviation tryLeaveGravRegion :=
  (tryLeaveGravRegion BLOCK_SZ_WLD directionToVector attemptModeTransitionFn).
Local Abbreviation moveAgent :=
  (moveAgent BLOCK_SZ_WLD directionToVector attemptModeTransitionFn).
Local Abbreviation newVelocity := (newVelocity directionToVector).

(** The probe reads the region and the position of the body, nothing
    else. *)
Lemma probeGrid_same (s s' : FreeModeImpl) (c : FreeModeSubcomponent)
    (d : Direction) :
  position (bodies s' !!! body c) = position (bodies s !!! body c) ->
  probeGridX s' c d = probeGridX s c d /\ probeGridY s' c d = probeGridY s c d.
Proof.
  intros H. unfold_probe. unfold comp_x, comp_y. rewrite H. auto.
Qed.

(** X24: while the probed cell stays inside the gravity region, giving
    the same command twice leaves every body as the first call left it,
    and the second call answers as the first: velocities are set, not
    added up. *)
Theorem moveAgent_repeated_command (s s' : FreeModeImpl) (id : EntityId)
    (c : FreeModeSubcomponent) (d : Direction) (ok : bool) :
  getComponent s id = Return c ->
  Span2d_contains (gravRegion s)
    (probeCellX BLOCK_SZ_WLD directionToVector s c d)
    (probeCellY BLOCK_SZ_WLD directionToVector s c d) = true ->
  moveAgent s id d = Return (ok, s') ->
  exists s'' : FreeModeImpl,
    moveAgent s' id d = Return (ok, s'') /\ bodies s'' = bodies s'.
Proof.
  intros Hc Hin Hmove.
  destruct (probeGrid_cell BLOCK_SZ_WLD directionToVector s c d) as [Hx Hy].
  rewrite <- Hx, <- Hy in Hin.
  pose proof (tryLeaveGravRegion_inside BLOCK_SZ_WLD directionToVector
                attemptModeTransitionFn s c d Hin) as Htry.
  rewrite (moveAgent_stayed _ _ _ s s id c d Hc Htry) in Hmove.
  destruct (Direction_eqb d UP && negb (bodyGrounded s (entityId c))) eqn:Eup.
  { inversion Hmove; subst. eexists.
    rewrite (moveAgent_stayed _ _ _ s' s' id c d Hc Htry), Eup.
    split; reflexivity. }
  destruct (Direction_eqb d DOWN) eqn:Edown.
  { inversion Hmove; subst. eexists.
    rewrite (moveAgent_stayed _ _ _ s' s' id c d Hc Htry), Eup, Edown.
    split; reflexivity. }
  inversion Hmove; subst ok s'. clear Hmove.
  set (v := newVelocity s c d).
  set (s2 := postMoveEvent c d (Body_setVelocity (body c) v s)).
  assert (Hc2 : getComponent s2 id = Return c) by exact Hc.
  assert (Hpos : position (bodies s2 !!! body c) = position (bodies s !!! body c)).
  { subst s2. simpl. rewrite lookup_total_insert_eq. reflexivity. }
  destruct (probeGrid_same s s2 c d Hpos) as [Hx2 Hy2].
  assert (Hin2 : Span2d_contains (gravRegion s2) (probeGridX s2 c d)
                   (probeGridY s2 c d) = true).
  { rewrite Hx2, Hy2. exact Hin. }
  pose proof (tryLeaveGravRegion_inside BLOCK_SZ_WLD directionToVector
                attemptModeTransitionFn s2 c d Hin2) as Htry2.
  rewrite (moveAgent_stayed _ _ _ s2 s2 id c d Hc2 Htry2).
  change (bodyGrounded s2 (entityId c)) with (bodyGrounded s (entityId c)).
  rewrite Eup, Edown. eexists. split; [reflexivity |].
  simpl. rewrite lookup_total_insert_eq. simpl.
  assert (Hv : newVelocity s2 c d = v).
  { subst v. unfold_newVelocity. subst s2. simpl.
    rewrite lookup_total_insert_eq. simpl.
    destruct (nonzero (vec_x (directionToVector d) * PLAYER_VELOCITY_H));
      destruct (nonzero (vec_y (directionToVector d) * PLAYER_VELOCITY_V));
      reflexivity. }
  rewrite Hv. apply insert_insert_eq.
Qed.

End RepeatedCommand.

(** ** The further properties at work on the sample data *)

Lemma readded_component_not_grounded_witness :
  bodyGrounded Sample.standing 1%N = true /\
  let s' :=
    snd (addComponent MoreSamples.place
           (removeComponent Sample.standing Sample.player)
           Sample.player 256 64) in
  moveAgent Sample.BLOCK_SZ_WLD Sample.directionToVector Sample.never
            s' 1%N UP
  = Return (false, s').
Proof.
  split; [reflexivity |].
  apply (readded_component_not_grounded Sample.BLOCK_SZ_WLD
           Sample.directionToVector Sample.never MoreSamples.place
           Sample.standing Sample.player 256 64).
  reflexivity.
Defined.

Lemma fence_collisions_post_nothing_witness :
  posted (collisionActive Sample.world [Sample.onFence]) = [] /\
  is_Some (collisions (collisionActive Sample.world [Sample.onFence]) !! 79%N).
Proof.
  destruct (fence_collisions_post_nothing [Sample.onFence] Sample.world)
    as [Hposted Hpairs].
  - intros p [<- | []]. right. reflexivity.
  - split; [exact Hposted |].
    apply (Hpairs Sample.onFence). left. reflexivity.
Defined.

Lemma ground_contact_grounds_entity_witness :
  bodyGrounded (collisionActivePair Sample.world MoreSamples.standingOnFence)
               1%N = true.
Proof.
  apply (ground_contact_grounds_entity Sample.world
           MoreSamples.standingOnFence Sample.player Sample.feet).
  - left. reflexivity.
  - right. left. reflexivity.
  - reflexivity.
Defined.

Lemma moveAgent_move_event_witness :
  exists (ok : bool) (s' : FreeModeImpl),
    moveAgent Sample.BLOCK_SZ_WLD Sample.directionToVector Sample.never
              Sample.world 1%N DOWN = Return (ok, s') /\
    posted s' = [] /\ ok = true.
Proof.
  exact (moveAgent_move_event Sample.BLOCK_SZ_WLD Sample.directionToVector
           Sample.never Sample.world Sample.world 1%N Sample.player DOWN false
           eq_refl eq_refl).
Defined.

Lemma moveAgent_writes_velocity_only_witness :
  exists (ok : bool) (s' : FreeModeImpl),
    moveAgent Sample.BLOCK_SZ_WLD Sample.directionToVector Sample.never
              Sample.world 1%N LEFT = Return (ok, s') /\
    grounded s' = grounded Sample.world /\
    position (bodies s' !!! 7%N) = position (bodies Sample.world !!! 7%N).
Proof.
  destruct (moveAgent_writes_velocity_only Sample.BLOCK_SZ_WLD
              Sample.directionToVector Sample.never Sample.world Sample.world
              1%N Sample.player LEFT false eq_refl eq_refl)
    as (ok & s' & Hmove & _ & _ & _ & Hg & _ & _ & _ & Hpos & _).
  exists ok, s'. auto.
Defined.

Lemma entitiesWithinRadius_grows_with_radius_witness :
  entitiesWithinRadius Sample.world 300 100 10
  ⊆ entitiesWithinRadius Sample.world 300 100 40.
Proof.
  apply (entitiesWithinRadius_grows_with_radius Sample.world 300 100 10 40).
  lra.
Defined.

Lemma fence_lies_along_edge_witness :
  (0 < 64)%Q /\
  (vec_x (bounds_max (bounds (fenceBody 64 MoreSamples.rightBorder)))
   == 5 * 64)%Q.
Proof.
  assert (Hpos : (0 < 64)%Q) by lra.
  split; [exact Hpos |].
  pose proof (fence_lies_along_edge 64 MoreSamples.rightBorder Hpos) as H.
  cbv zeta in H.
  change (orientation MoreSamples.rightBorder) with VERTICAL in H.
  cbv beta iota in H. destruct H as (_ & _ & _ & _ & H).
  exact H.
Defined.

Lemma onWindowResized_integer_scale_witness :
  exists n : Z,
    1 <= n /\
    RenderView.stage_scale
      (RenderView.onWindowResized MoreSamples.BLOCK_SZ_PX MoreSamples.toPixels
         MoreSamples.view 1280 720) = inject_Z n.
Proof.
  assert (HB : (0 < MoreSamples.BLOCK_SZ_PX)%Q) by reflexivity.
  assert (Hh : (0 < 720)%Q) by reflexivity.
  destruct (onWindowResized_integer_scale MoreSamples.BLOCK_SZ_PX
              MoreSamples.toPixels MoreSamples.view 1280 720 HB Hh)
    as (n & Hn & Hscale & _).
  exists n. auto.
Defined.

Lemma viewportOffset_zero_inside_witness :
  (fst (RenderView.viewportOffset 0 0 10 8 3 2) == 0)%Q.
Proof.
  assert (Hw : (0 <= 10)%Q) by lra.
  assert (Hh : (0 <= 8)%Q) by lra.
  apply (viewportOffset_zero_inside 0 0 10 8 3 2 Hw Hh).
  lra.
Defined.

Lemma playAnimation_restarts_animation_witness :
  exists (sys' : RenderSystem.t) (c' : RenderSystem.CSprite),
    RenderSystem.playAnimation Sample.staged Sample.renderer 5%N "gem_burn"
    = Return (true, sys') /\
    RenderSystem.components sys' !! 5%N = Some (RenderSystem.Sprite c') /\
    RenderSystem.activeAnimation c' = Some "gem_burn"%string.
Proof.
  destruct (RenderSystem.playAnimation Sample.staged Sample.renderer 5%N
              "gem_burn") as [[ok sys'] | e] eqn:Hplay;
    [| vm_compute in Hplay; discriminate Hplay].
  destruct (playAnimation_restarts_animation Sample.staged Sample.renderer
              sys' 5%N "gem_burn" Sample.gemSprite ok eq_refl Hplay)
    as (-> & c' & anim & anim' & _ & Hc' & _ & Hactive & _).
  exists sys', c'. auto.
Defined.

Lemma getDirties_harvests_once_witness :
  fst (AgentSystem_getDirties [13%N; 12%N] MoreSamples.agents) = [13%N; 12%N] /\
  fst (AgentSystem_getDirties [13%N; 12%N]
         (snd (AgentSystem_getDirties [13%N; 12%N] MoreSamples.agents))) = [].
Proof.
  assert (Hnd : NoDup [13%N; 12%N]).
  { apply NoDup_cons. split; [| apply NoDup_singleton].
    intros H. apply list_elem_of_singleton in H. discriminate H. }
  assert (Hcover : forall k,
            is_Some (AgentSystem.entries
                       (AgentSystem.components MoreSamples.agents) !! k) ->
            In k [13%N; 12%N]).
  { intros k [c Hc]. simpl in Hc.
    destruct (decide (k = 12%N)) as [-> | H12]; [right; left; reflexivity |].
    destruct (decide (k = 13%N)) as [-> | H13]; [left; reflexivity |].
    exfalso. unfold MoreSamples.agents in Hc. simpl in Hc.
    rewrite !lookup_insert_ne in Hc by (simpl; congruence).
    discriminate Hc. }
  destruct (getDirties_harvests_once [13%N; 12%N] MoreSamples.agents Hnd Hcover)
    as (Hfirst & _ & _ & Hsecond).
  split; [exact Hfirst | exact Hsecond].
Defined.

Lemma moveAgent_repeated_command_witness :
  let s' :=
    postMoveEvent Sample.player LEFT
      (Body_setVelocity 7%N
         (newVelocity Sample.directionToVector Sample.world Sample.player LEFT)
         Sample.world) in
  exists s'' : FreeModeImpl,
    moveAgent Sample.BLOCK_SZ_WLD Sample.directionToVector Sample.never
              s' 1%N LEFT = Return (true, s'') /\
    bodies s'' = bodies s'.
Proof.
  exact (moveAgent_repeated_command Sample.BLOCK_SZ_WLD
           Sample.directionToVector Sample.never Sample.world _ 1%N
           Sample.player LEFT true eq_refl eq_refl eq_refl).
Defined.
